(** * rsql-criteria-typescript: the filter expression encoder

    A shallow embedding of [src/files/rsql-filter-expression.ts] and of the
    parts of the JavaScript runtime it calls ([String.prototype.replace] with
    a global pattern, [encodeURIComponent], [Number::toString], the [Date]
    getters, [Array.prototype.filter/map/join]), followed by the properties
    the specification states about them.

    JavaScript strings are sequences of UTF-16 code units, and
    [encodeURIComponent] raises [URIError] on an unpaired surrogate, so
    strings are lists of code units and every function that may raise
    returns a [Result]. *)

From Stdlib Require Import List NArith ZArith Bool Lia String Ascii.
Import ListNotations.

(* ------------------------------------------------------------------ *)
(** ** Exceptions *)

Module Js.

Inductive Exception : Type :=
| URIError            (* raised by encodeURIComponent *)
| TypeError           (* raised by [in] on a value that is not an object *)
| UserError (tag : N) (* anything a caller-supplied operator raises *).

Inductive Result (A : Type) : Type :=
| Ok (a : A)
| Throw (e : Exception).

Arguments Ok {A} a.
Arguments Throw {A} e.

Definition bind {A B} (r : Result A) (k : A -> Result B) : Result B :=
  match r with
  | Ok a => k a
  | Throw e => Throw e
  end.

Definition fmap {A B} (f : A -> B) (r : Result A) : Result B :=
  bind r (fun a => Ok (f a)).

Definition returns {A} (r : Result A) : bool :=
  match r with Ok _ => true | Throw _ => false end.

(** [Array.prototype.map] with a callback that may raise: the first
    exception aborts the traversal. *)
Fixpoint mapM {A B} (f : A -> Result B) (l : list A) : Result (list B) :=
  match l with
  | [] => Ok []
  | x :: t => bind (f x) (fun y => bind (mapM f t) (fun ys => Ok (y :: ys)))
  end.

End Js.

Export Js.

Declare Scope js_scope.
Delimit Scope js_scope with js.
Notation "x <- c ;; k" := (bind c (fun x => k))
  (at level 61, c at next level, right associativity) : js_scope.
Open Scope js_scope.

(* ------------------------------------------------------------------ *)
(** ** Strings: UTF-16 code units *)

Open Scope N_scope.

Definition code_unit := N.
Definition jsstring := list code_unit.

(** A string literal of the source (ASCII only). *)
Definition lit (s : string) : jsstring :=
  map N_of_ascii (list_ascii_of_string s).

Definition ch (a : ascii) : code_unit := N_of_ascii a.

(** The code units a real string can hold. *)
Definition is_code_unit (c : code_unit) : bool := c <? 65536.

Definition is_lead_surrogate (c : code_unit) : bool :=
  (55296 <=? c) && (c <=? 56319).       (* D800..DBFF *)
Definition is_trail_surrogate (c : code_unit) : bool :=
  (56320 <=? c) && (c <=? 57343).       (* DC00..DFFF *)

(** [s.replace(/c/g, by)] for a one-character pattern: every occurrence of
    [c], left to right, is replaced by [by]. *)
Definition replace_all (c : code_unit) (by_ : jsstring) (s : jsstring) : jsstring :=
  flat_map (fun x => if x =? c then by_ else [x]) s.

(** [Array.prototype.join] on strings. *)
Fixpoint join (sep : jsstring) (l : list jsstring) : jsstring :=
  match l with
  | [] => []
  | [x] => x
  | x :: t => x ++ sep ++ join sep t
  end.

(* ------------------------------------------------------------------ *)
(** ** encodeURIComponent (ECMA-262, Encode with the unreserved set
       [A-Z a-z 0-9 - _ . ! ~ * ' ( )]) *)

Definition is_alpha (c : code_unit) : bool :=
  ((65 <=? c) && (c <=? 90)) || ((97 <=? c) && (c <=? 122)).
Definition is_digit (c : code_unit) : bool := (48 <=? c) && (c <=? 57).
Definition is_mark (c : code_unit) : bool :=
  existsb (N.eqb c) (lit "-_.!~*'()").
Definition is_unreserved (c : code_unit) : bool :=
  is_alpha c || is_digit c || is_mark c.

Definition hex_digit (n : N) : code_unit :=
  if n <? 10 then 48 + n else 55 + n.   (* 0-9, A-F *)

(** One octet as [%XX], upper-case hexadecimal. *)
Definition pct_octet (b : N) : jsstring :=
  [ch "%"; hex_digit ((b / 16) mod 16); hex_digit (b mod 16)].

(** UTF-8 octets of a code point. *)
Definition utf8 (cp : N) : list N :=
  if cp <? 128 then [cp]
  else if cp <? 2048 then [192 + cp / 64; 128 + cp mod 64]
  else if cp <? 65536 then
    [224 + cp / 4096; 128 + (cp / 64) mod 64; 128 + cp mod 64]
  else
    [240 + cp / 262144; 128 + (cp / 4096) mod 64;
     128 + (cp / 64) mod 64; 128 + cp mod 64].

(** The code point of a surrogate pair. *)
Definition pair_code_point (lead trail : code_unit) : N :=
  65536 + (lead - 55296) * 1024 + (trail - 56320).

Definition pct_code_point (cp : N) : jsstring :=
  flat_map pct_octet (utf8 cp).

Fixpoint encodeURIComponent (s : jsstring) : Result jsstring :=
  match s with
  | [] => Ok []
  | c :: rest =>
      if is_unreserved c then
        r <- encodeURIComponent rest ;; Ok (c :: r)
      else if is_lead_surrogate c then
        match rest with
        | d :: rest' =>
            if is_trail_surrogate d then
              r <- encodeURIComponent rest' ;;
              Ok (pct_code_point (pair_code_point c d) ++ r)
            else Throw URIError
        | [] => Throw URIError
        end
      else if is_trail_surrogate c then Throw URIError
      else
        r <- encodeURIComponent rest ;; Ok (pct_code_point c ++ r)
  end.

(* ------------------------------------------------------------------ *)
(** ** Numbers

    The numbers this program meets are calendar fields, page numbers and
    caller-supplied integers.  A number is an integer, [NaN] (what the
    getters of an invalid [Date] return) or an infinity.  The model is
    exact for the safe integers, up to 2^53 - 1 in magnitude, which
    [Number::toString] prints digit for digit; larger integers, which it
    rounds or prints with an exponent, and numbers with a fractional part
    are outside this model, and the properties that depend on the digits
    printed are stated for safe integers only. *)

Inductive JsNumber : Type :=
| NInt (z : Z)
| NNaN
| NInf (negative : bool).

(** Decimal digits of a natural number, most significant first. *)
Fixpoint digits_aux (fuel : nat) (n : N) (acc : jsstring) : jsstring :=
  match fuel with
  | O => acc
  | S fuel' =>
      let acc' := (48 + n mod 10) :: acc in
      if n / 10 =? 0 then acc' else digits_aux fuel' (n / 10) acc'
  end.

Definition digits (n : N) : jsstring :=
  digits_aux (S (N.to_nat (N.log2 n))) n [].

(** [Number::toString] in radix 10. *)
Definition Number_toString (n : JsNumber) : jsstring :=
  match n with
  | NInt z =>
      if (z <? 0)%Z then ch "-" :: digits (Z.to_N (- z)) else digits (Z.to_N z)
  | NNaN => lit "NaN"
  | NInf false => lit "Infinity"
  | NInf true => lit "-Infinity"
  end.

(** [a + b] on numbers. *)
Definition Number_add (a b : JsNumber) : JsNumber :=
  match a, b with
  | NInt x, NInt y => NInt (x + y)
  | NNaN, _ | _, NNaN => NNaN
  | NInf s, NInf t => if Bool.eqb s t then NInf s else NNaN
  | NInf s, NInt _ | NInt _, NInf s => NInf s
  end.

(* ------------------------------------------------------------------ *)
(** ** Primitive values and ToString *)

Inductive Prim : Type :=
| PString (s : jsstring)
| PNumber (n : JsNumber)
| PBoolean (b : bool)
| PNull
| PUndefined.

(** ToString, as applied by a template literal and by [String(x)]. *)
Definition ToString (p : Prim) : jsstring :=
  match p with
  | PString s => s
  | PNumber n => Number_toString n
  | PBoolean true => lit "true"
  | PBoolean false => lit "false"
  | PNull => lit "null"
  | PUndefined => lit "undefined"
  end.

(** [util.isString], [util.isNumber], [util.isBoolean]: [typeof] tests. *)
Definition isString (p : Prim) : bool :=
  match p with PString _ => true | _ => false end.
Definition isNumber (p : Prim) : bool :=
  match p with PNumber _ => true | _ => false end.
Definition isBoolean (p : Prim) : bool :=
  match p with PBoolean _ => true | _ => false end.
Definition isUndefined (p : Prim) : bool :=
  match p with PUndefined => true | _ => false end.

(** [Array.prototype.join]: each element through ToString, except that
    [null] and [undefined] give the empty string. *)
Definition join_element (p : Prim) : jsstring :=
  match p with
  | PNull | PUndefined => []
  | _ => ToString p
  end.

Definition Array_join (sep : jsstring) (l : list Prim) : jsstring :=
  join sep (map join_element l).

(* ------------------------------------------------------------------ *)
(** ** Date objects

    The program only reads a [Date] through its getters.  An invalid date
    answers [NaN] to every getter; a valid one answers with its local and
    its UTC calendar fields. *)

Record DateFields : Type := mkDateFields {
  fullYear : Z;
  month : Z;          (* 0..11 *)
  date : Z;           (* 1..31 *)
  hours : Z;
  minutes : Z;
  seconds : Z;
  milliseconds : Z
}.

Inductive JsDate : Type :=
| InvalidDate
| DateOf (local utc : DateFields).

Definition getter (side : bool) (f : DateFields -> Z) (d : JsDate) : JsNumber :=
  match d with
  | InvalidDate => NNaN
  | DateOf l u => NInt (f (if side then u else l))
  end.

Definition getFullYear := getter false fullYear.
Definition getMonth := getter false month.
Definition getDate := getter false date.
Definition getUTCFullYear := getter true fullYear.
Definition getUTCMonth := getter true month.
Definition getUTCDate := getter true date.
Definition getUTCHours := getter true hours.
Definition getUTCMinutes := getter true minutes.
Definition getUTCSeconds := getter true seconds.
Definition getUTCMilliseconds := getter true milliseconds.

(** The ranges ECMA-262 gives the fields of a valid date. *)
Definition fields_in_range (f : DateFields) : Prop :=
  (-271821 <= fullYear f <= 275760)%Z /\
  (0 <= month f <= 11)%Z /\ (1 <= date f <= 31)%Z /\
  (0 <= hours f <= 23)%Z /\ (0 <= minutes f <= 59)%Z /\
  (0 <= seconds f <= 59)%Z /\ (0 <= milliseconds f <= 999)%Z.

(* ------------------------------------------------------------------ *)
(** ** rsql-filter-expression.ts *)

(** The enum [Operators], in the order of the [switch] in [build]. *)
Inductive Operators : Type :=
| Equal | NotEqual | Like
| GreaterThan | GreaterThanEqualTo | LessThan | LessThanEqualTo
| StartsWith | EndsWith | Contains | DoesNotContain
| In | NotIn | IsEmpty | IsNotEmpty | IsNull | IsNotNull.

(** The values [build] distinguishes.  [VArray] holds what the array may
    hold at run time ([undefined] and [null] elements included); [VOther]
    is any value that passes none of the tests of [build], a plain object
    for instance. *)
Inductive Value : Type :=
| VString (s : jsstring)
| VNumber (n : JsNumber)
| VBoolean (b : bool)
| VArray (items : list Prim)
| VDate (d : JsDate)
| VNull
| VUndefined
| VOther.

(** The interface [CustomOperator]: one method, which may raise. *)
Record CustomOperator : Type := mkCustomOperator {
  convertToRSQLString : Value -> jsstring -> bool -> Result jsstring
}.

Record RSQLFilterExpressionOptions : Type := mkOptions {
  includeTimestamp : bool
}.

(** The run-time values that may arrive as the constructor's [operator]
    argument, declared [Operators | CustomOperator]: a member of the enum,
    which is a primitive; an object that has the method; a function that
    has the method as a property (a class with a static
    [convertToRSQLString], say), which the structural type accepts as
    well; and, past the type checker, an object without the method.
    [null] and [undefined] are not of the declared type and are left
    out. *)
Inductive OperatorArg : Type :=
| ArgOperator (o : Operators)
| ArgCustom (c : CustomOperator)
| ArgCallable (c : CustomOperator)
| ArgPlainObject.

Coercion ArgOperator : Operators >-> OperatorArg.

(** [Some op], where a stored value is expected, is the stored enum
    member. *)
#[local] Arguments Some {A} & a.

(** The fields hold what the constructor, or a later assignment, stores
    in them: [operator] any value that came as the argument (the cast
    [as Operators] checks nothing at run time), [customOperator] the
    method of the object stored there. *)
Record RSQLFilterExpression : Type := mkExpression {
  field : jsstring;
  operator : option OperatorArg;          (* Operators | undefined *)
  customOperator : option CustomOperator; (* CustomOperator | undefined *)
  value : Value;
  options : RSQLFilterExpressionOptions
}.

(** [typeof]: the members of a TypeScript enum are numbers (or strings,
    when the enum gives them initialisers; the enum's file is not among
    the sources), never ['object']. *)
Definition typeof (a : OperatorArg) : jsstring :=
  match a with
  | ArgOperator _ => lit "number"
  | ArgCustom _ | ArgPlainObject => lit "object"
  | ArgCallable _ => lit "function"
  end.

(** [===] on strings. *)
Fixpoint strict_equal (s t : jsstring) : bool :=
  match s, t with
  | [], [] => true
  | x :: s', y :: t' => (x =? y) && strict_equal s' t'
  | _, _ => false
  end.

(** The property [convertToRSQLString] of a value, when it has one. *)
Definition convertToRSQLString_of (a : OperatorArg) : option CustomOperator :=
  match a with
  | ArgCustom c | ArgCallable c => Some c
  | ArgOperator _ | ArgPlainObject => None
  end.

Definition is_some {A} (o : option A) : bool :=
  match o with Some _ => true | None => false end.

(** ['convertToRSQLString' in object]: [in] raises [TypeError] when its
    right operand is a primitive. *)
Definition instanceOfCustomOperator (object : OperatorArg) : Result bool :=
  match object with
  | ArgOperator _ => Throw TypeError
  | ArgCustom _ | ArgCallable _ | ArgPlainObject =>
      Ok (is_some (convertToRSQLString_of object))
  end.

Definition default_options : RSQLFilterExpressionOptions := mkOptions false.

(** The body of the constructor (lines 13-30).  [&&] evaluates its right
    operand only when the left one is true. *)
Definition constructor
    (field_ : jsstring) (operator_ : OperatorArg) (value_ : Value)
    (options_ : RSQLFilterExpressionOptions) : Result RSQLFilterExpression :=
  isCustom <- (if strict_equal (typeof operator_) (lit "object")
               then instanceOfCustomOperator operator_
               else Ok false) ;;
  Ok (if isCustom
      then mkExpression field_ None (convertToRSQLString_of operator_)
             value_ options_
      else mkExpression field_ (Some operator_) None value_ options_).

(** [new RSQLFilterExpression(field, operator, value, options)]: the
    object the constructor returns.  It returns for every argument, [in]
    being reached for objects only ([constructor_returns] below). *)
Definition new_RSQLFilterExpression_with
    (field_ : jsstring) (operator_ : OperatorArg) (value_ : Value)
    (options_ : RSQLFilterExpressionOptions) : RSQLFilterExpression :=
  if strict_equal (typeof operator_) (lit "object")
     && is_some (convertToRSQLString_of operator_)
  then mkExpression field_ None (convertToRSQLString_of operator_)
         value_ options_
  else mkExpression field_ (Some operator_) None value_ options_.

(** The constructor with [options] left to its default. *)
Definition new_RSQLFilterExpression
    (field_ : jsstring) (operator_ : OperatorArg) (value_ : Value)
    : RSQLFilterExpression :=
  new_RSQLFilterExpression_with field_ operator_ value_ default_options.

Definition dquote : code_unit := 34.
Definition backslash : code_unit := 92.

(** [quote]: the template literal applies ToString to its argument. *)
Definition quote (value_ : Prim) : jsstring :=
  [dquote] ++ ToString value_ ++ [dquote].

(** [.replace(/\\/g, '\\\\').replace(/"/g, '\\"')] *)
Definition escape (s : jsstring) : jsstring :=
  replace_all dquote [backslash; dquote]
    (replace_all backslash [backslash; backslash] s).

(** [numberToString]: the [while] loop adds one character per turn, so
    [digitCount] turns are enough for it to finish. *)
Fixpoint pad_loop (turns : nat) (digitCount : nat) (s : jsstring) : jsstring :=
  match turns with
  | O => s
  | S turns' =>
      if (List.length s <? digitCount)%nat
      then pad_loop turns' digitCount (ch "0" :: s)
      else s
  end.

Definition numberToString (num : JsNumber) (digitCount : nat) : jsstring :=
  pad_loop digitCount digitCount (ToString (PNumber num)).

Definition buildDateString (dateObject : JsDate) (useUTC : bool) : jsstring :=
  let year := if useUTC then getUTCFullYear dateObject else getFullYear dateObject in
  let month := if useUTC then Number_add (getUTCMonth dateObject) (NInt 1)
               else Number_add (getMonth dateObject) (NInt 1) in
  let date := if useUTC then getUTCDate dateObject else getDate dateObject in
  let yearString := numberToString year 4 in
  let monthString := numberToString month 2 in
  let dateString := numberToString date 2 in
  join (lit "-") [yearString; monthString; dateString].

Definition buildTimestamp (dateObject : JsDate) : jsstring :=
  let hoursString := numberToString (getUTCHours dateObject) 2 in
  let minutesString := numberToString (getUTCMinutes dateObject) 2 in
  let secondsString := numberToString (getUTCSeconds dateObject) 2 in
  let millisString := numberToString (getUTCMilliseconds dateObject) 3 in
  lit "T" ++ join (lit ":") [hoursString; minutesString; secondsString]
    ++ lit "." ++ millisString ++ lit "Z".

(** [this.value.filter(i => i !== undefined)] *)
Definition keep_defined (items : list Prim) : list Prim :=
  filter (fun i => negb (isUndefined i)) items.

(** The callback of [.map] in the array branch. *)
Definition quote_item (i : Prim) : Result Prim :=
  if isNumber i then Ok i
  else match i with
       | PString s =>
           let val := escape s in
           r <- encodeURIComponent (quote (PString val)) ;; Ok (PString r)
       | _ => r <- encodeURIComponent (quote i) ;; Ok (PString r)
       end.

(** The first half of [build]: [(valueString, shouldQuote)] after the chain
    of type tests (lines 36-75).  Only the array branch may raise. *)
Definition encode_value (v : Value) (opts : RSQLFilterExpressionOptions)
    : Result (jsstring * bool) :=
  let st := ([], false) in
  let st := match v with
            | VString s => (escape s, true)
            | _ => st
            end in
  let st := match v with
            | VNumber n => (Number_toString n, snd st)
            | _ => st
            end in
  let st := match v with
            | VBoolean b => (if b then lit "true" else lit "false", snd st)
            | _ => st
            end in
  st <- match v with
        | VArray items =>
            quotedValues <- mapM quote_item (keep_defined items) ;;
            Ok (Array_join (lit ",") quotedValues, snd st)
        | _ => Ok st
        end ;;
  let st := match v with
            | VDate d =>
                (if includeTimestamp opts
                 then buildDateString d true ++ buildTimestamp d
                 else buildDateString d false, true)
            | _ => st
            end in
  let st := match v with
            | VNull => (lit "null", snd st)
            | _ => st
            end in
  Ok st.

Definition quote_if (shouldQuote : bool) (valueString : jsstring) : jsstring :=
  if shouldQuote then quote (PString valueString) else valueString.

(** The [switch] over the built-in operators: the text added after the
    field. *)
Definition operator_suffix (op : Operators) (valueString : jsstring)
    (shouldQuote : bool) : Result jsstring :=
  match op with
  | Equal =>
      e <- encodeURIComponent (quote_if shouldQuote valueString) ;;
      Ok (lit "=in=" ++ e)
  | NotEqual =>
      e <- encodeURIComponent (quote_if shouldQuote valueString) ;;
      Ok (lit "!=" ++ e)
  | Like =>
      e <- encodeURIComponent (quote (PString valueString)) ;;
      Ok (lit "==" ++ e)
  | GreaterThan =>
      e <- encodeURIComponent (lit ">") ;; Ok (e ++ valueString)
  | GreaterThanEqualTo =>
      e <- encodeURIComponent (lit ">=") ;; Ok (e ++ valueString)
  | LessThan =>
      e <- encodeURIComponent (lit "<") ;; Ok (e ++ valueString)
  | LessThanEqualTo =>
      e <- encodeURIComponent (lit "<=") ;; Ok (e ++ valueString)
  | StartsWith =>
      e <- encodeURIComponent (quote (PString (valueString ++ lit "*"))) ;;
      Ok (lit "==" ++ e)
  | EndsWith =>
      e <- encodeURIComponent (quote (PString (lit "*" ++ valueString))) ;;
      Ok (lit "==" ++ e)
  | Contains =>
      e <- encodeURIComponent
             (quote (PString (lit "*" ++ valueString ++ lit "*"))) ;;
      Ok (lit "==" ++ e)
  | DoesNotContain =>
      e <- encodeURIComponent
             (quote (PString (lit "*" ++ valueString ++ lit "*"))) ;;
      Ok (lit "!=" ++ e)
  | In => Ok (lit "=in=(" ++ valueString ++ lit ")")
  | NotIn => Ok (lit "=out=(" ++ valueString ++ lit ")")
  | IsEmpty =>
      e <- encodeURIComponent [dquote; dquote] ;; Ok (lit "==" ++ e)
  | IsNotEmpty =>
      e <- encodeURIComponent [dquote; dquote] ;; Ok (lit "!=" ++ e)
  | IsNull => Ok (lit "==null")
  | IsNotNull => Ok (lit "!=null")
  end.

(** [RSQLFilterExpression.build] *)
Definition build (this : RSQLFilterExpression) : Result jsstring :=
  st <- encode_value (value this) (options this) ;;
  let valueString := fst st in
  let shouldQuote := snd st in
  let filterString := field this in
  match customOperator this with
  | Some custom =>
      r <- convertToRSQLString custom (value this) valueString shouldQuote ;;
      Ok (filterString ++ r)
  | None =>
      match operator this with
      | Some (ArgOperator op) =>
          r <- operator_suffix op valueString shouldQuote ;;
          Ok (filterString ++ r)
      | Some _ | None => Ok filterString  (* no [case] of the switch *)
      end
  end.

(* ------------------------------------------------------------------ *)
(** ** Filter lists and criteria

    [rsql-filter-list.ts] and [rsql-criteria.ts] are not among the sources;
    their test suite is.  The definitions of this part are
    written from the specification and checked against those tests. *)

(** Modelled from the spec: the boolean connective stored with an entry of
    a Filter List ([RSQLFilterList], missing). *)
Inductive Connective : Type := AND | OR.

#[local] Set Warnings "-register-all".

(** Modelled from the spec: the entries of a Filter List (the class
    [RSQLFilterList] is missing).  An entry is a Filter Expression or a
    nested Filter List, stored with the connective that joins it to its
    predecessor (section 3). *)
Inductive Filter : Type :=
| FExpression (e : RSQLFilterExpression)
| FList (entries : list (Connective * Filter)).

(** Modelled from the spec: the Filter List itself (class [RSQLFilterList],
    missing). *)
Record RSQLFilterList : Type := mkFilterList {
  entries : list (Connective * Filter)
}.

(** Modelled from the spec: a Filter List seen as an entry of another
    list (nesting of [RSQLFilterList], missing). *)
Definition as_filter (l : RSQLFilterList) : Filter :=
  FList (entries l).

(** Modelled from the spec: a new, empty [RSQLFilterList] (missing). *)
Definition empty_list : RSQLFilterList := mkFilterList [].

(** Modelled from the spec: [RSQLFilterList.and] and [.or] (missing), which
    append an entry with its connective. *)
Definition list_add (c : Connective) (x : Filter) (l : RSQLFilterList)
    : RSQLFilterList :=
  mkFilterList (entries l ++ [(c, x)]).

(** Modelled from the spec: [RSQLFilterList.and] (missing). *)
Definition list_and := list_add AND.


(** Modelled from the spec: the operator words of section 4.3, which
    [RSQLFilterList.build] (missing) percent-encodes as a unit. *)
Definition connective_word (c : Connective) : jsstring :=
  match c with
  | AND => lit " and "
  | OR => lit " or "
  end.

(** Modelled from the spec: the empty list of section 3, the one that is
    "treated as absent" ([RSQLFilterList], missing): a list without
    entries, or whose entries are all empty lists.  An expression is never
    empty. *)
Fixpoint is_empty_filter (f : Filter) : bool :=
  match f with
  | FExpression _ => false
  | FList es =>
      (fix all_empty (es : list (Connective * Filter)) : bool :=
         match es with
         | [] => true
         | (_, x) :: t => is_empty_filter x && all_empty t
         end) es
  end.

(** Modelled from the spec: the test "the Filter List is empty" of the
    merge rule ([RSQLCriteria.and], missing). *)
Definition is_empty_list (l : RSQLFilterList) : bool :=
  is_empty_filter (as_filter l).

(** Modelled from the spec: the number of entries of a list that count,
    the empty ones being treated as absent ([RSQLFilterList], missing). *)
Definition entry_count (es : list (Connective * Filter)) : nat :=
  List.length (filter (fun cx => negb (is_empty_filter (snd cx))) es).

(** Modelled from the spec: "a list with two or more entries", the kind
    that is wrapped in parentheses when it is combined into a larger
    expression (section 3; [RSQLFilterList], missing). *)
Definition has_several_entries (f : Filter) : bool :=
  match f with
  | FExpression _ => false
  | FList es => (2 <=? entry_count es)%nat
  end.

(** Modelled from the spec: the parentheses put around a list that is
    combined into a larger expression (section 3; missing). *)
Definition parenthesize (s : jsstring) : jsstring :=
  lit "(" ++ s ++ lit ")".

(** Modelled from the spec: the fragments after the first, each behind
    its percent-encoded connective word (section 4.3;
    [RSQLFilterList.build] is missing). *)
Fixpoint join_fragments (frags : list (Connective * jsstring)) : Result jsstring :=
  match frags with
  | [] => Ok []
  | (c, s) :: t =>
      w <- encodeURIComponent (connective_word c) ;;
      r <- join_fragments t ;;
      Ok (w ++ s ++ r)
  end.

(** Modelled from the spec: the three cases of [RSQLFilterList.build]
    (missing) on the rendered entries: none gives the empty string, one
    gives its fragment, several are joined by their connectives; no
    parentheses are added at this level (section 4.3). *)
Definition join_entries (frags : list (Connective * jsstring))
    : Result jsstring :=
  match frags with
  | [] => Ok []
  | (_, s) :: t => r <- join_fragments t ;; Ok (s ++ r)
  end.

(** Modelled from the spec: [RSQLFilterList.build] (missing), over
    expressions and nested lists.  An entry that is an empty list is
    skipped, with its connective; an entry that is a list of two or more
    entries is rendered between parentheses, being combined into a larger
    expression (sections 3 and 4.3). *)
Fixpoint build_filter (f : Filter) : Result jsstring :=
  match f with
  | FExpression e => build e
  | FList es =>
      frags <- (fix each (es : list (Connective * Filter)) :=
                  match es with
                  | [] => Ok []
                  | (c, x) :: t =>
                      if is_empty_filter x then each t
                      else
                        s <- build_filter x ;;
                        r <- each t ;;
                        Ok ((c, if has_several_entries x
                                then parenthesize s else s) :: r)
                  end) es ;;
      join_entries frags
  end.


(** Modelled from the spec: [RSQLFilterList.build] on the list owned by a
    criteria object (missing): the sole top-level where clause, which gets
    no parentheses of its own. *)
Definition build_list (l : RSQLFilterList) : Result jsstring :=
  build_filter (as_filter l).

(** Modelled from the spec: the direction of an ordering entry (class
    [RSQLOrderByList], missing). *)
Inductive Direction : Type := asc | desc.

(** Modelled from the spec: the word an ordering entry ends with
    ([RSQLOrderByList.build], missing). *)
Definition direction_word (d : Direction) : jsstring :=
  match d with
  | asc => lit "asc"
  | desc => lit "desc"
  end.

(** Modelled from the spec: the Criteria Aggregator (class [RSQLCriteria],
    missing), section 3. *)
Record RSQLCriteria : Type := mkCriteria {
  filters : RSQLFilterList;
  orderBy : list (jsstring * Direction);
  pageSize : option N;
  pageNumber : option N;
  includeTotalCount : bool;
  whereKeyword : jsstring;
  orderByKeyword : jsstring;
  pageSizeKeyword : jsstring;
  includeTotalCountKeyword : jsstring;
  pageNumberKeyword : jsstring
}.

(** Modelled from the spec: [new RSQLCriteria(...)] with its five optional
    keyword arguments (missing); the defaults are those of section 6. *)
Definition new_RSQLCriteria_with (w o s t n : jsstring) : RSQLCriteria :=
  mkCriteria empty_list [] None None true w o s t n.

(** Modelled from the spec: [new RSQLCriteria()] with the default keywords
    (missing). *)
Definition new_RSQLCriteria : RSQLCriteria :=
  new_RSQLCriteria_with (lit "$where") (lit "$orderBy") (lit "$pageSize")
    (lit "$includeTotalCount") (lit "$pageNumber").

(** Modelled from the spec: assignments to the public fields of
    [RSQLCriteria] (missing). *)
Definition set_filters (f : RSQLFilterList) (c : RSQLCriteria) : RSQLCriteria :=
  mkCriteria f (orderBy c) (pageSize c) (pageNumber c) (includeTotalCount c)
    (whereKeyword c) (orderByKeyword c) (pageSizeKeyword c)
    (includeTotalCountKeyword c) (pageNumberKeyword c).

(** Modelled from the spec: [criteria.orderBy.add(...)], seen as an assignment
    ([RSQLCriteria], missing). *)
Definition set_orderBy (o : list (jsstring * Direction)) (c : RSQLCriteria)
    : RSQLCriteria :=
  mkCriteria (filters c) o (pageSize c) (pageNumber c) (includeTotalCount c)
    (whereKeyword c) (orderByKeyword c) (pageSizeKeyword c)
    (includeTotalCountKeyword c) (pageNumberKeyword c).

(** Modelled from the spec: [criteria.pageSize = ...]
    ([RSQLCriteria], missing). *)
Definition set_pageSize (p : option N) (c : RSQLCriteria) : RSQLCriteria :=
  mkCriteria (filters c) (orderBy c) p (pageNumber c) (includeTotalCount c)
    (whereKeyword c) (orderByKeyword c) (pageSizeKeyword c)
    (includeTotalCountKeyword c) (pageNumberKeyword c).

(** Modelled from the spec: [criteria.pageNumber = ...]
    ([RSQLCriteria], missing). *)
Definition set_pageNumber (p : option N) (c : RSQLCriteria) : RSQLCriteria :=
  mkCriteria (filters c) (orderBy c) (pageSize c) p (includeTotalCount c)
    (whereKeyword c) (orderByKeyword c) (pageSizeKeyword c)
    (includeTotalCountKeyword c) (pageNumberKeyword c).

(** Modelled from the spec: [criteria.includeTotalCount = ...]
    ([RSQLCriteria], missing). *)
Definition set_includeTotalCount (b : bool) (c : RSQLCriteria) : RSQLCriteria :=
  mkCriteria (filters c) (orderBy c) (pageSize c) (pageNumber c) b
    (whereKeyword c) (orderByKeyword c) (pageSizeKeyword c)
    (includeTotalCountKeyword c) (pageNumberKeyword c).

(** Modelled from the spec: section 1 of [RSQLCriteria.build] (missing),
    section 4.4; a section that is left out is [None]. *)
Definition where_section (c : RSQLCriteria) : Result (option jsstring) :=
  body <- build_list (filters c) ;;
  Ok (match body with
      | [] => None
      | _ :: _ => Some (whereKeyword c ++ lit "=" ++ body)
      end).

(** Modelled from the spec: section 2 of [RSQLCriteria.build] (missing),
    the ordering entries joined by a comma and a space, percent-encoded. *)
Definition orderBy_section (c : RSQLCriteria) : Result (option jsstring) :=
  match orderBy c with
  | [] => Ok None
  | _ :: _ =>
      e <- encodeURIComponent
             (join (lit ", ")
                (map (fun fd => fst fd ++ lit " " ++ direction_word (snd fd))
                   (orderBy c))) ;;
      Ok (Some (orderByKeyword c ++ lit "=" ++ e))
  end.

(** Modelled from the spec: section 3 of [RSQLCriteria.build] (missing). *)
Definition pageSize_section (c : RSQLCriteria) : option jsstring :=
  option_map (fun p => pageSizeKeyword c ++ lit "=" ++ digits p) (pageSize c).

(** Modelled from the spec: section 4 of [RSQLCriteria.build] (missing),
    present when the page size is set and the flag is on. *)
Definition includeTotalCount_section (c : RSQLCriteria) : option jsstring :=
  match pageSize c with
  | Some _ =>
      if includeTotalCount c
      then Some (includeTotalCountKeyword c ++ lit "=true")
      else None
  | None => None
  end.

(** Modelled from the spec: section 5 of [RSQLCriteria.build] (missing). *)
Definition pageNumber_section (c : RSQLCriteria) : option jsstring :=
  option_map (fun p => pageNumberKeyword c ++ lit "=" ++ digits p) (pageNumber c).

(** Modelled from the spec: the sections that are included
    ([RSQLCriteria.build], missing). *)
Definition present (sections : list (option jsstring)) : list jsstring :=
  flat_map (fun s => match s with Some x => [x] | None => [] end) sections.

(** Modelled from the spec: [RSQLCriteria.build] (missing): the sections
    that are present, in their fixed order, joined by [&]. *)
Definition build_criteria (c : RSQLCriteria) : Result jsstring :=
  w <- where_section c ;;
  o <- orderBy_section c ;;
  Ok (join (lit "&")
        (present [w; o; pageSize_section c; includeTotalCount_section c;
                  pageNumber_section c])).

(** Modelled from the spec: the composite of a merge, the new two-entry
    list of section 4.4 ([RSQLCriteria.and], missing). *)
Definition composite (conn : Connective) (l r : RSQLFilterList) : Filter :=
  FList [(conn, as_filter l); (conn, as_filter r)].

(** Modelled from the spec: [RSQLCriteria.and] and [.or] (missing), section
    4.4.  Only the receiver's filters change.  When both lists are
    non-empty the composite becomes the where clause of the receiver: it
    is the one entry of the receiver's new list, so that, as a list of two
    entries combined into a larger expression, it is rendered between
    parentheses. *)
Definition merge (conn : Connective) (this other : RSQLCriteria) : RSQLCriteria :=
  match is_empty_list (filters this), is_empty_list (filters other) with
  | false, false =>
      set_filters
        (mkFilterList [(conn, composite conn (filters this) (filters other))])
        this
  | false, true => this
  | true, false => set_filters (filters other) this
  | true, true => this
  end.

(** Modelled from the spec: [RSQLCriteria.and] (missing). *)
Definition criteria_and := merge AND.

(** Modelled from the spec: [RSQLCriteria.or] (missing). *)
Definition criteria_or := merge OR.

(* ------------------------------------------------------------------ *)
(** ** Vocabulary of the specification *)

(** A string without unpaired surrogates, made of 16-bit code units. *)
Fixpoint well_formed (s : jsstring) : bool :=
  match s with
  | [] => true
  | c :: rest =>
      is_code_unit c &&
      (if is_lead_surrogate c then
         match rest with
         | d :: rest' => is_trail_surrogate d && well_formed rest'
         | [] => false
         end
       else negb (is_trail_surrogate c) && well_formed rest)
  end.

Definition code_units (s : jsstring) : bool := forallb is_code_unit s.

(** The strings inside an array element. *)
Definition item_well_formed (i : Prim) : bool :=
  match i with
  | PString s => well_formed s
  | _ => true
  end.

(** The strings of a value: the value itself, or the string elements of an
    array. *)
Definition value_well_formed (v : Value) : bool :=
  match v with
  | VString s => well_formed s
  | VArray items => forallb item_well_formed items
  | _ => true
  end.

(** The encoding [build] gives a string value under [Equal] and
    [NotEqual]: escape, wrap in double quotes, percent-encode. *)
Definition encode_string_value (s : jsstring) : Result jsstring :=
  encodeURIComponent (quote (PString (escape s))).

(** The decoding of the specification, step 1: percent-decoding.  [%XX]
    gives an octet, anything else stands for itself; the octets are then
    read as UTF-8 and written as UTF-16. *)
Definition hex_value (c : code_unit) : option N :=
  if is_digit c then Some (c - 48)
  else if (65 <=? c) && (c <=? 70) then Some (c - 55)
  else if (97 <=? c) && (c <=? 102) then Some (c - 87)
  else None.

Inductive Token : Type :=
| Plain (c : code_unit)
| Octet (b : N).

Fixpoint pct_tokens (s : jsstring) : option (list Token) :=
  match s with
  | [] => Some []
  | c :: rest =>
      if c =? ch "%" then
        match rest with
        | h :: l :: rest' =>
            match hex_value h, hex_value l, pct_tokens rest' with
            | Some x, Some y, Some ts => Some (Octet (16 * x + y) :: ts)
            | _, _, _ => None
            end
        | _ => None
        end
      else option_map (cons (Plain c)) (pct_tokens rest)
  end.

Definition continuation (t : Token) : option N :=
  match t with
  | Octet b => if (128 <=? b) && (b <? 192) then Some (b - 128) else None
  | Plain _ => None
  end.

(** UTF-16 code units of a code point. *)
Definition utf16 (cp : N) : jsstring :=
  if cp <? 65536 then [cp]
  else [55296 + (cp - 65536) / 1024; 56320 + (cp - 65536) mod 1024].

Definition scalar_in (lo hi cp : N) : bool :=
  (lo <=? cp) && (cp <=? hi) &&
  negb (is_lead_surrogate cp || is_trail_surrogate cp).

Fixpoint utf8_tokens (ts : list Token) : option jsstring :=
  match ts with
  | [] => Some []
  | Plain c :: rest => option_map (cons c) (utf8_tokens rest)
  | Octet b :: rest =>
      if b <? 128 then option_map (cons b) (utf8_tokens rest)
      else if (192 <=? b) && (b <? 224) then
        match rest with
        | t1 :: rest1 =>
            match continuation t1, utf8_tokens rest1 with
            | Some x1, Some r =>
                let cp := (b - 192) * 64 + x1 in
                if scalar_in 128 2047 cp then Some (utf16 cp ++ r) else None
            | _, _ => None
            end
        | _ => None
        end
      else if (224 <=? b) && (b <? 240) then
        match rest with
        | t1 :: t2 :: rest2 =>
            match continuation t1, continuation t2, utf8_tokens rest2 with
            | Some x1, Some x2, Some r =>
                let cp := (b - 224) * 4096 + x1 * 64 + x2 in
                if scalar_in 2048 65535 cp then Some (utf16 cp ++ r) else None
            | _, _, _ => None
            end
        | _ => None
        end
      else if (240 <=? b) && (b <? 248) then
        match rest with
        | t1 :: t2 :: t3 :: rest3 =>
            match continuation t1, continuation t2, continuation t3,
                  utf8_tokens rest3 with
            | Some x1, Some x2, Some x3, Some r =>
                let cp := (b - 240) * 262144 + x1 * 4096 + x2 * 64 + x3 in
                if scalar_in 65536 1114111 cp then Some (utf16 cp ++ r)
                else None
            | _, _, _, _ => None
            end
        | _ => None
        end
      else None
  end.

Definition percent_decode (s : jsstring) : option jsstring :=
  match pct_tokens s with
  | Some ts => utf8_tokens ts
  | None => None
  end.

(** Step 2: strip the surrounding double quotes. *)
Definition strip_quotes (s : jsstring) : option jsstring :=
  match s with
  | q :: r =>
      match rev r with
      | q' :: r' =>
          if (q =? dquote) && (q' =? dquote) then Some (rev r') else None
      | [] => None
      end
  | [] => None
  end.

(** Step 3: undo the two escapes, backslash-backslash and
    backslash-quote. *)
Fixpoint unescape (s : jsstring) : option jsstring :=
  match s with
  | [] => Some []
  | c :: rest =>
      if c =? backslash then
        match rest with
        | d :: rest' =>
            if (d =? backslash) || (d =? dquote)
            then option_map (cons d) (unescape rest')
            else None
        | [] => None
        end
      else option_map (cons c) (unescape rest)
  end.

Definition decode_string_value (e : jsstring) : option jsstring :=
  match percent_decode e with
  | Some d =>
      match strip_quotes d with
      | Some q => unescape q
      | None => None
      end
  | None => None
  end.

(** What the specification says an element of an array value becomes
    (section 4.1), with the quotes the code adds: a number is left alone, a
    string is escaped, quoted and percent-encoded, anything else is turned
    into text, quoted and percent-encoded. *)
Definition item_text (i : Prim) : Result jsstring :=
  match i with
  | PNumber n => Ok (Number_toString n)
  | PString s => encodeURIComponent ([dquote] ++ escape s ++ [dquote])
  | other => encodeURIComponent ([dquote] ++ ToString other ++ [dquote])
  end.

(** The same element as the claim words it, without the quotes. *)
Definition item_text_unquoted (i : Prim) : Result jsstring :=
  match i with
  | PNumber n => Ok (Number_toString n)
  | PString s => encodeURIComponent (escape s)
  | other => encodeURIComponent (ToString other)
  end.

(** A number written with exactly [width] decimal digits. *)
Fixpoint fixed_width (width : nat) (n : N) : jsstring :=
  match width with
  | O => []
  | S w => fixed_width w (n / 10) ++ [48 + n mod 10]
  end.

Fixpoint pow10 (k : nat) : N :=
  match k with
  | O => 1
  | S k' => 10 * pow10 k'
  end.

(** The number a string of decimal digits denotes. *)
Definition decimal_value (s : jsstring) : N :=
  fold_left (fun acc c => 10 * acc + (c - 48)) s 0.

(** Powers of two, to measure the fuel of [digits]. *)
Fixpoint pow2 (k : nat) : N :=
  match k with
  | O => 1
  | S k' => 2 * pow2 k'
  end.

(** [YYYY-MM-DD] and [THH:mm:ss.SSSZ] of calendar fields. *)
Definition iso_date (f : DateFields) : jsstring :=
  fixed_width 4 (Z.to_N (fullYear f)) ++ lit "-" ++
  fixed_width 2 (Z.to_N (month f + 1)) ++ lit "-" ++
  fixed_width 2 (Z.to_N (date f)).

Definition iso_time (f : DateFields) : jsstring :=
  lit "T" ++ fixed_width 2 (Z.to_N (hours f)) ++ lit ":" ++
  fixed_width 2 (Z.to_N (minutes f)) ++ lit ":" ++
  fixed_width 2 (Z.to_N (seconds f)) ++ lit "." ++
  fixed_width 3 (Z.to_N (milliseconds f)) ++ lit "Z".

(** Characters that may stand in a query string as they are: the
    unreserved set of [encodeURIComponent], the percent sign of an escape
    and the equals sign of an operator token. *)
Definition url_safe (c : code_unit) : bool :=
  is_unreserved c || (c =? ch "%") || (c =? ch "=").

(** The operators that append the value string as it is. *)
Definition appends_raw_value (op : Operators) : bool :=
  match op with
  | GreaterThan | GreaterThanEqualTo | LessThan | LessThanEqualTo
  | In | NotIn => true
  | _ => false
  end.




(* ------------------------------------------------------------------ *)
(** ** Fixtures of the test suite *)

Definition code_equal_abc : Filter :=
  FExpression (new_RSQLFilterExpression (lit "code") (ArgOperator Equal)
                 (VString (lit "abc"))).

Definition code_contains_a : Filter :=
  FExpression (new_RSQLFilterExpression (lit "code") (ArgOperator Contains)
                 (VString (lit "a"))).

Definition description_contains_b : Filter :=
  FExpression (new_RSQLFilterExpression (lit "description")
                 (ArgOperator Contains) (VString (lit "b"))).



Definition z_equal_3 : Filter :=
  FExpression (new_RSQLFilterExpression (lit "z") (ArgOperator Equal)
                 (VNumber (NInt 3))).


Definition criteria_z : RSQLCriteria :=
  set_filters (list_and z_equal_3 empty_list) new_RSQLCriteria.

Definition criteria_hollow : RSQLCriteria :=
  set_filters (list_and (as_filter empty_list) empty_list) new_RSQLCriteria.

(** [criteria1] of the merge tests. *)
Definition criteria1 : RSQLCriteria :=
  set_filters (list_and code_contains_a empty_list)
    (set_orderBy [(lit "code", asc)]
       (set_pageNumber (Some 1) (set_pageSize (Some 10) new_RSQLCriteria))).

Definition criteria2 : RSQLCriteria :=
  set_filters (list_and description_contains_b empty_list) new_RSQLCriteria.

(** The characters [encodeURIComponent] writes: unreserved ones and the
    percent sign. *)
Definition is_encoded_char (c : code_unit) : bool :=
  is_unreserved c || (c =? ch "%").

Definition is_ascii (c : code_unit) : bool := c <? 128.

(** [encodeURIComponent] as a relation, one rule per branch of its loop. *)
Inductive Encodes : jsstring -> jsstring -> Prop :=
| Encodes_nil : Encodes [] []
| Encodes_unreserved (c : code_unit) (s e : jsstring) :
    is_unreserved c = true ->
    Encodes s e -> Encodes (c :: s) (c :: e)
| Encodes_escaped (c : code_unit) (s e : jsstring) :
    is_unreserved c = false ->
    is_lead_surrogate c = false -> is_trail_surrogate c = false ->
    Encodes s e -> Encodes (c :: s) (pct_code_point c ++ e)
| Encodes_pair (c d : code_unit) (s e : jsstring) :
    is_unreserved c = false ->
    is_lead_surrogate c = true -> is_trail_surrogate d = true ->
    Encodes s e ->
    Encodes (c :: d :: s) (pct_code_point (pair_code_point c d) ++ e).

(** What the two [replace] calls of [build] do to one code unit. *)
Definition escape_char (c : code_unit) : jsstring :=
  if c =? backslash then [backslash; backslash]
  else if c =? dquote then [backslash; dquote]
  else [c].

Definition all_ascii (s : jsstring) : bool := forallb is_ascii s.

(** Two dates: 5 January 2019, 01:02:03.004, and 1 January of the year
    10000, both seen from a UTC time zone. *)
Definition fields_2019_01_05 : DateFields := mkDateFields 2019 0 5 1 2 3 4.
Definition date_2019_01_05 : JsDate :=
  DateOf fields_2019_01_05 fields_2019_01_05.

Definition fields_10000_01_01 : DateFields := mkDateFields 10000 0 1 0 0 0 0.
Definition date_10000_01_01 : JsDate :=
  DateOf fields_10000_01_01 fields_10000_01_01.

(* ------------------------------------------------------------------ *)
(** ** Further vocabulary *)

(** Percent-encoding of a text of ASCII characters, one character at a
    time: an unreserved character stands for itself, any other becomes one
    [%XX] escape. *)
Definition pct_ascii (s : jsstring) : jsstring :=
  flat_map (fun c => if is_unreserved c then [c] else pct_octet c) s.

(** The integers [Number::toString] prints digit for digit: the safe
    integers, up to 2^53 - 1 in magnitude. *)
Definition is_safe_number (n : JsNumber) : bool :=
  match n with
  | NInt z => (Z.abs z <=? 9007199254740991)%Z
  | _ => true
  end.

Definition is_array (v : Value) : bool :=
  match v with
  | VArray _ => true
  | _ => false
  end.

(** The values for which [build] sets [shouldQuote]. *)
Definition sets_shouldQuote (v : Value) : bool :=
  match v with
  | VString _ | VDate _ => true
  | _ => false
  end.

(** The text the six operators that do not encode put before and after
    the value string. *)
Definition raw_open (op : Operators) : jsstring :=
  match op with
  | GreaterThan => lit "%3E"
  | GreaterThanEqualTo => lit "%3E%3D"
  | LessThan => lit "%3C"
  | LessThanEqualTo => lit "%3C%3D"
  | In => lit "=in=("
  | NotIn => lit "=out=("
  | _ => []
  end.

Definition raw_close (op : Operators) : jsstring :=
  match op with
  | In | NotIn => lit ")"
  | _ => []
  end.


(** How many code units of a string the two [replace] calls touch. *)
Definition count_escaped (s : jsstring) : nat :=
  List.length (filter (fun c => (c =? backslash) || (c =? dquote)) s).

(** [THH:mm:ss.SSSZ] with its two colons percent-encoded. *)
Definition iso_time_pct (f : DateFields) : jsstring :=
  lit "T" ++ fixed_width 2 (Z.to_N (hours f)) ++ lit "%3A" ++
  fixed_width 2 (Z.to_N (minutes f)) ++ lit "%3A" ++
  fixed_width 2 (Z.to_N (seconds f)) ++ lit "." ++
  fixed_width 3 (Z.to_N (milliseconds f)) ++ lit "Z".

(* ================================================================== *)
(** * Properties *)

(** ** The result monad *)

Lemma bind_Ok {A B} (r : Result A) (k : A -> Result B) (b : B) :
  bind r k = Ok b -> exists a, r = Ok a /\ k a = Ok b.
Proof.
  destruct r as [a|e]; simpl; intro H; [exists a; auto | discriminate].
Qed.

Lemma fmap_Ok {A B} (f : A -> B) (r : Result A) (b : B) :
  fmap f r = Ok b -> exists a, r = Ok a /\ b = f a.
Proof.
  destruct r as [a|e]; simpl; intro H; [|discriminate].
  exists a; split; congruence.
Qed.

Lemma fmap_fmap {A B C} (f : A -> B) (g : B -> C) (r : Result A) :
  fmap g (fmap f r) = fmap (fun a => g (f a)) r.
Proof. destruct r; reflexivity. Qed.

Lemma mapM_fmap {A B C} (f : A -> Result B) (g : B -> C) (l : list A) :
  mapM (fun x => fmap g (f x)) l = fmap (map g) (mapM f l).
Proof.
  induction l as [|x t IH]; simpl; [reflexivity|].
  rewrite IH. destruct (f x); simpl; [|reflexivity].
  destruct (mapM f t); reflexivity.
Qed.

(** ** The constructor and the operator dispatch *)

Lemma new_with_operator (f : jsstring) (op : Operators) (v : Value)
    (opts : RSQLFilterExpressionOptions) :
  new_RSQLFilterExpression_with f (ArgOperator op) v opts
  = mkExpression f (Some (ArgOperator op)) None v opts.
Proof. reflexivity. Qed.


Example build_equal_abc :
  build (new_RSQLFilterExpression (lit "code") (ArgOperator Equal)
           (VString (lit "abc")))
  = Ok (lit "code=in=%22abc%22").
Proof. reflexivity. Qed.

Example build_contains_a :
  build (new_RSQLFilterExpression (lit "code") (ArgOperator Contains)
           (VString (lit "a")))
  = Ok (lit "code==%22*a*%22").
Proof. reflexivity. Qed.

(** C1.  With the Equal operator and a string value, [build] is the field,
    then the token [=in=], then the percent-encoding of the escaped value
    between double quotes; it raises exactly when that percent-encoding
    does.  Field [code] with value [abc] gives [code=in=%22abc%22], which
    is [code=in=] followed by the percent-encoding of the quoted [abc]. *)
Theorem build_Equal_string :
  forall (f v : jsstring) (opts : RSQLFilterExpressionOptions),
    build (new_RSQLFilterExpression_with f (ArgOperator Equal) (VString v) opts)
    = fmap (fun pct => f ++ lit "=in=" ++ pct)
        (encodeURIComponent ([dquote] ++ escape v ++ [dquote]))
    /\ build (new_RSQLFilterExpression (lit "code") (ArgOperator Equal)
                (VString (lit "abc")))
       = fmap (fun pct => lit "code=in=" ++ pct)
           (encodeURIComponent ([dquote] ++ lit "abc" ++ [dquote]))
    /\ encodeURIComponent ([dquote] ++ lit "abc" ++ [dquote])
       = Ok (lit "%22abc%22").
Proof.
  intros f v opts. split; [|split; reflexivity].
  rewrite new_with_operator. unfold build, quote.
  cbn -[encodeURIComponent escape lit].
  destruct (encodeURIComponent (dquote :: escape v ++ [dquote])); reflexivity.
Qed.


(** ** Array values *)

Lemma keep_defined_In (items : list Prim) (x : Prim) :
  List.In x (keep_defined items) <-> List.In x items /\ x <> PUndefined.
Proof.
  unfold keep_defined. rewrite filter_In.
  split; intros [H1 H2]; split; auto.
  - intro E; subst x; discriminate.
  - destruct x; simpl; auto; exfalso; apply H2; reflexivity.
Qed.

Lemma quote_item_text (i : Prim) :
  fmap join_element (quote_item i) = item_text i.
Proof.
  destruct i as [s|n|b| |]; unfold quote_item, item_text, quote;
    cbn -[encodeURIComponent escape lit]; try reflexivity;
    match goal with
    | |- context [encodeURIComponent ?x] => destruct (encodeURIComponent x)
    end; reflexivity.
Qed.

Lemma join_quoted_items (l : list Prim) :
  fmap (Array_join (lit ",")) (mapM quote_item l)
  = fmap (join (lit ",")) (mapM item_text l).
Proof.
  unfold Array_join.
  rewrite <- (fmap_fmap (map join_element) (join (lit ","))).
  rewrite <- mapM_fmap. f_equal.
  induction l as [|x t IH]; simpl; [reflexivity|].
  rewrite IH, quote_item_text. reflexivity.
Qed.

Lemma encode_value_array (items : list Prim) (opts : RSQLFilterExpressionOptions) :
  encode_value (VArray items) opts
  = fmap (fun parts => (join (lit ",") parts, false))
      (mapM item_text (keep_defined items)).
Proof.
  unfold encode_value; simpl.
  rewrite <- (fmap_fmap (join (lit ",")) (fun s => (s, false))).
  rewrite <- join_quoted_items.
  destruct (mapM quote_item (keep_defined items)); reflexivity.
Qed.

(** C4, as the claim words it, fails: the one-element array [["a"]] is
    encoded as [%22a%22], the string between double quotes, where escaping
    and percent-encoding alone would give [a]; and [[true]] is encoded as
    [%22true%22], not as [true]. *)
Lemma array_items_are_quoted :
  encode_value (VArray [PString (lit "a")]) default_options
    = Ok (lit "%22a%22", false)
  /\ fmap (fun parts => (join (lit ",") parts, false))
       (mapM item_text_unquoted (keep_defined [PString (lit "a")]))
    = Ok (lit "a", false)
  /\ encode_value (VArray [PBoolean true]) default_options
    = Ok (lit "%22true%22", false)
  /\ fmap (fun parts => (join (lit ",") parts, false))
       (mapM item_text_unquoted (keep_defined [PBoolean true]))
    = Ok (lit "true", false).
Proof. repeat split; reflexivity. Qed.

(** C4, amended.  The value encoding of an array drops the [undefined]
    elements and nothing else, keeps the order, and turns each remaining
    element into text: a number as [Number::toString] prints it, unencoded;
    a string escaped, wrapped in double quotes and percent-encoded; any
    other element converted to text, wrapped in double quotes and
    percent-encoded.  The texts are joined with a comma and the joined
    result is not marked for quoting. *)
Theorem array_value_encoding :
  forall (items : list Prim) (opts : RSQLFilterExpressionOptions),
    encode_value (VArray items) opts
    = fmap (fun parts => (join (lit ",") parts, false))
        (mapM item_text (keep_defined items))
    /\ keep_defined items = filter (fun i => negb (isUndefined i)) items
    /\ (forall x, List.In x (keep_defined items) <-> List.In x items /\ x <> PUndefined)
    /\ (forall n, item_text (PNumber n) = Ok (Number_toString n))
    /\ (forall s, item_text (PString s)
                  = encodeURIComponent ([dquote] ++ escape s ++ [dquote]))
    /\ (forall b, item_text (PBoolean b)
                  = encodeURIComponent
                      ([dquote] ++ (if b then lit "true" else lit "false")
                       ++ [dquote])).
Proof.
  intros items opts. split; [apply encode_value_array|].
  split; [reflexivity|]. split; [intro x; apply keep_defined_In|].
  repeat split; try reflexivity.
Qed.

(** C10.  The array branch removes only the elements that are [undefined].
    A [null] element is kept; it is neither a number nor a string, so it
    takes the last branch of the callback, the one booleans take, and
    becomes the percent-encoding of the quoted text [null]. *)
Theorem null_item_is_kept_and_quoted :
  forall (items : list Prim) (opts : RSQLFilterExpressionOptions),
    (forall x, List.In x (keep_defined items) <-> List.In x items /\ x <> PUndefined)
    /\ keep_defined (PNull :: items) = PNull :: keep_defined items
    /\ keep_defined (PUndefined :: items) = keep_defined items
    /\ quote_item PNull = fmap PString (encodeURIComponent (quote PNull))
    /\ (forall b, quote_item (PBoolean b)
                  = fmap PString (encodeURIComponent (quote (PBoolean b))))
    /\ quote PNull = [dquote] ++ lit "null" ++ [dquote]
    /\ quote_item PNull = Ok (PString (lit "%22null%22"))
    /\ encode_value (VArray [PUndefined; PNull; PBoolean true]) opts
       = Ok (lit "%22null%22,%22true%22", false).
Proof.
  intros items opts. split; [intro x; apply keep_defined_In|].
  repeat split; reflexivity.
Qed.

(** ** Criteria: the scenarios of the test suite *)

Example test_builds_nothing :
  build_criteria new_RSQLCriteria = Ok [].
Proof. reflexivity. Qed.

Example test_where_clause :
  build_criteria
    (set_filters (list_and code_equal_abc empty_list) new_RSQLCriteria)
  = Ok (lit "$where=code=in=%22abc%22").
Proof. reflexivity. Qed.

Example test_orderBy_clause :
  build_criteria (set_orderBy [(lit "code", asc)] new_RSQLCriteria)
  = Ok (lit "$orderBy=code%20asc").
Proof. reflexivity. Qed.

Example test_where_and_orderBy :
  build_criteria
    (set_filters (list_and code_equal_abc empty_list)
       (set_orderBy [(lit "code", asc)] new_RSQLCriteria))
  = Ok (lit "$where=code=in=%22abc%22&$orderBy=code%20asc").
Proof. reflexivity. Qed.

Example test_custom_where_keyword :
  build_criteria
    (set_filters (list_and code_equal_abc empty_list)
       (new_RSQLCriteria_with (lit "$filter") (lit "$orderBy")
          (lit "$pageSize") (lit "$includeTotalCount") (lit "$pageNumber")))
  = Ok (lit "$filter=code=in=%22abc%22").
Proof. reflexivity. Qed.

Example test_pageSize :
  build_criteria (set_pageSize (Some 10) new_RSQLCriteria)
  = Ok (lit "$pageSize=10&$includeTotalCount=true").
Proof. reflexivity. Qed.

Example test_no_total_count :
  build_criteria
    (set_includeTotalCount false (set_pageSize (Some 10) new_RSQLCriteria))
  = Ok (lit "$pageSize=10").
Proof. reflexivity. Qed.

Example test_all_pagination :
  build_criteria
    (set_pageNumber (Some 2) (set_pageSize (Some 10) new_RSQLCriteria))
  = Ok (lit "$pageSize=10&$includeTotalCount=true&$pageNumber=2").
Proof. reflexivity. Qed.

Example test_keyword_overrides :
  build_criteria
    (set_pageNumber (Some 2)
       (set_pageSize (Some 10)
          (new_RSQLCriteria_with (lit "$where") (lit "$orderBy") (lit "$take")
             (lit "total") (lit "$skip"))))
  = Ok (lit "$take=10&total=true&$skip=2").
Proof. reflexivity. Qed.

Example test_and_merge :
  build_criteria (criteria_and criteria1 criteria2)
  = Ok (lit "$where=(code==%22*a*%22%20and%20description==%22*b*%22)" ++
        lit "&$orderBy=code%20asc&$pageSize=10&$includeTotalCount=true" ++
        lit "&$pageNumber=1").
Proof. reflexivity. Qed.

Example test_and_merge_blank :
  build_criteria (criteria_and criteria1 new_RSQLCriteria)
  = Ok (lit "$where=code==%22*a*%22&$orderBy=code%20asc" ++
        lit "&$pageSize=10&$includeTotalCount=true&$pageNumber=1").
Proof. reflexivity. Qed.

Example test_or_merge :
  build_criteria (criteria_or criteria1 criteria2)
  = Ok (lit "$where=(code==%22*a*%22%20or%20description==%22*b*%22)" ++
        lit "&$orderBy=code%20asc&$pageSize=10&$includeTotalCount=true" ++
        lit "&$pageNumber=1").
Proof. reflexivity. Qed.

Example test_or_merge_blank :
  build_criteria (criteria_or criteria1 new_RSQLCriteria)
  = Ok (lit "$where=code==%22*a*%22&$orderBy=code%20asc" ++
        lit "&$pageSize=10&$includeTotalCount=true&$pageNumber=1").
Proof. reflexivity. Qed.

(** ** Criteria: the merge *)















Example merge_skips_a_hollow_list :
  is_empty_list (filters criteria_hollow) = true
  /\ build_criteria (criteria_and criteria_hollow criteria_z)
     = Ok (lit "$where=z=in=3")
  /\ build_criteria (criteria_or criteria_z criteria_hollow)
     = Ok (lit "$where=z=in=3").
Proof. repeat split; reflexivity. Qed.


(** C8.  A merge leaves the receiver's ordering, page size, page number,
    total-count flag and keywords as they were, and of the other criteria
    object only the filters matter: two objects with the same filters give
    the same merged receiver. *)
Theorem merge_frame :
  forall (conn : Connective) (a b : RSQLCriteria),
    let m := merge conn a b in
    orderBy m = orderBy a
    /\ pageSize m = pageSize a
    /\ pageNumber m = pageNumber a
    /\ includeTotalCount m = includeTotalCount a
    /\ whereKeyword m = whereKeyword a
    /\ orderByKeyword m = orderByKeyword a
    /\ pageSizeKeyword m = pageSizeKeyword a
    /\ includeTotalCountKeyword m = includeTotalCountKeyword a
    /\ pageNumberKeyword m = pageNumberKeyword a
    /\ orderBy_section m = orderBy_section a
    /\ pageSize_section m = pageSize_section a
    /\ includeTotalCount_section m = includeTotalCount_section a
    /\ pageNumber_section m = pageNumber_section a
    /\ (forall b', filters b' = filters b ->
                   merge conn a b' = m
                   /\ build_criteria (merge conn a b') = build_criteria m).
Proof.
  intros conn a b m. subst m. unfold merge.
  destruct (is_empty_list (filters a)) eqn:Ea;
    destruct (is_empty_list (filters b)) eqn:Eb;
    repeat (split; [reflexivity|]);
    intros b' Hb; rewrite Hb, Eb; split; reflexivity.
Qed.

(** ** Numbers as text *)

Lemma pow2_spec (k : nat) : pow2 k = 2 ^ N.of_nat k.
Proof.
  induction k as [|k IH]; [reflexivity|].
  rewrite Nat2N.inj_succ, N.pow_succ_r'. cbn [pow2]. rewrite IH. reflexivity.
Qed.

Lemma pow10_pos (k : nat) : 0 < pow10 k.
Proof. induction k; cbn [pow10]; lia. Qed.

Lemma fixed_width_length (w : nat) (n : N) :
  List.length (fixed_width w n) = w.
Proof.
  revert n; induction w as [|w IH]; intro n; simpl; [reflexivity|].
  rewrite length_app, IH. simpl. lia.
Qed.

Lemma fixed_width_zero (j : nat) : fixed_width j 0 = repeat 48 j.
Proof.
  induction j as [|j IH]; [reflexivity|].
  simpl fixed_width. change (0 / 10) with 0. rewrite IH.
  change (48 + 0 mod 10) with 48. symmetry. apply repeat_cons.
Qed.

Lemma fixed_width_pad (m j : nat) (n : N) :
  n < pow10 m -> fixed_width (j + m) n = repeat 48 j ++ fixed_width m n.
Proof.
  revert n; induction m as [|m IH]; intros n Hn.
  - simpl in Hn. assert (n = 0) by lia. subst n.
    rewrite Nat.add_0_r, app_nil_r. apply fixed_width_zero.
  - rewrite Nat.add_succ_r. simpl fixed_width.
    rewrite IH, app_assoc; [reflexivity|].
    cbn [pow10] in Hn. apply N.Div0.div_lt_upper_bound. exact Hn.
Qed.

Lemma digits_aux_S (fuel : nat) (n : N) (acc : jsstring) :
  digits_aux (S fuel) n acc
  = if n / 10 =? 0 then (48 + n mod 10) :: acc
    else digits_aux fuel (n / 10) ((48 + n mod 10) :: acc).
Proof. reflexivity. Qed.

Lemma fixed_width_S (w : nat) (n : N) :
  fixed_width (S w) n = fixed_width w (n / 10) ++ [48 + n mod 10].
Proof. reflexivity. Qed.

Lemma below_ten (n : N) : n / 10 = 0 -> n < 10.
Proof.
  intro E. pose proof (N.div_mod n 10). pose proof (N.mod_lt n 10). lia.
Qed.

Lemma digits_aux_fixed (fuel : nat) :
  forall (n : N) (acc : jsstring),
    n < pow2 (S fuel) ->
    exists m, digits_aux (S fuel) n acc = fixed_width (S m) n ++ acc
              /\ n < pow10 (S m)
              /\ (forall k, n < pow10 (S k) -> (m <= k)%nat).
Proof.
  induction fuel as [|fuel IH]; intros n acc Hn; rewrite digits_aux_S.
  - cbn [pow2] in Hn.
    assert (E : n / 10 = 0) by (apply N.div_small; lia).
    exists O. rewrite E, N.eqb_refl, fixed_width_S. cbn [fixed_width app pow10].
    repeat split; [lia | intros; lia].
  - destruct (n / 10 =? 0) eqn:E.
    + apply N.eqb_eq in E. exists O.
      rewrite fixed_width_S. cbn [fixed_width app pow10].
      apply below_ten in E. repeat split; [lia | intros; lia].
    + apply N.eqb_neq in E.
      assert (Hd : n / 10 < pow2 (S fuel)).
      { apply N.Div0.div_lt_upper_bound.
        change (pow2 (S (S fuel))) with (2 * pow2 (S fuel)) in Hn. lia. }
      destruct (IH (n / 10) ((48 + n mod 10) :: acc) Hd) as (m & Hm & Hlt & Hmin).
      exists (S m). rewrite Hm. split; [|split].
      * rewrite (fixed_width_S (S m)), <- app_assoc. reflexivity.
      * change (pow10 (S (S m))) with (10 * pow10 (S m)).
        pose proof (N.div_mod n 10). pose proof (N.mod_lt n 10). lia.
      * intros k Hk. destruct k as [|k].
        -- exfalso. cbn [pow10] in Hk. apply E. apply N.div_small. lia.
        -- apply le_n_S. apply Hmin.
           change (pow10 (S (S k))) with (10 * pow10 (S k)) in Hk.
           apply N.Div0.div_lt_upper_bound. exact Hk.
Qed.

Lemma log2_fuel (n : N) : n < pow2 (S (N.to_nat (N.log2 n))).
Proof.
  rewrite pow2_spec, Nat2N.inj_succ, N2Nat.id.
  destruct (N.eq_dec n 0) as [->|Hn]; [reflexivity|].
  apply N.log2_spec. lia.
Qed.

(** [digits] writes a number with as many digits as it needs, and no
    more. *)
Lemma digits_fixed (n : N) :
  exists m, digits n = fixed_width (S m) n
            /\ n < pow10 (S m)
            /\ (forall k, n < pow10 (S k) -> (m <= k)%nat).
Proof.
  destruct (digits_aux_fixed (N.to_nat (N.log2 n)) n [] (log2_fuel n))
    as (m & Hm & Hlt & Hmin).
  exists m. unfold digits. rewrite Hm, app_nil_r. auto.
Qed.

(** The digits written denote the number: the fuel of [digits] is enough. *)
Lemma decimal_value_snoc (s : jsstring) (c : code_unit) :
  decimal_value (s ++ [c]) = 10 * decimal_value s + (c - 48).
Proof. unfold decimal_value. rewrite fold_left_app. reflexivity. Qed.

Lemma decimal_fixed_width (w : nat) :
  forall n, n < pow10 w -> decimal_value (fixed_width w n) = n.
Proof.
  induction w as [|w IH]; intros n Hn.
  - cbn [pow10] in Hn. assert (n = 0) by lia. subst n. reflexivity.
  - rewrite fixed_width_S, decimal_value_snoc, IH.
    + rewrite (N.add_comm 48), N.add_sub. symmetry. apply N.div_mod. lia.
    + cbn [pow10] in Hn. apply N.Div0.div_lt_upper_bound. exact Hn.
Qed.

Lemma digits_value (n : N) : decimal_value (digits n) = n.
Proof.
  destruct (digits_fixed n) as (m & Hm & Hlt & _). rewrite Hm.
  apply decimal_fixed_width, Hlt.
Qed.

(** The loop of [numberToString] ends within [digitCount] turns. *)
Lemma pad_loop_repeat (turns k : nat) :
  forall s : jsstring,
    (k - List.length s <= turns)%nat ->
    pad_loop turns k s = repeat 48 (k - List.length s) ++ s.
Proof.
  induction turns as [|turns IH]; intros s Hs.
  - assert (E : (k - List.length s = 0)%nat) by lia. rewrite E. reflexivity.
  - simpl pad_loop. destruct (List.length s <? k)%nat eqn:E.
    + apply Nat.ltb_lt in E. rewrite IH by (simpl; lia).
      change (ch "0") with 48. simpl List.length.
      replace (k - List.length s)%nat with (S (k - S (List.length s))) by lia.
      simpl repeat. rewrite repeat_cons, <- app_assoc. reflexivity.
    + apply Nat.ltb_ge in E.
      replace (k - List.length s)%nat with O by lia. reflexivity.
Qed.

Lemma numberToString_pads (num : JsNumber) (k : nat) :
  numberToString num k
  = repeat 48 (k - List.length (Number_toString num)) ++ Number_toString num.
Proof. unfold numberToString. apply pad_loop_repeat. simpl. lia. Qed.

Lemma numberToString_fixed (z : Z) (k : nat) :
  (0 <= z)%Z -> Z.to_N z < pow10 (S k) ->
  numberToString (NInt z) (S k) = fixed_width (S k) (Z.to_N z).
Proof.
  intros Hz Hk. rewrite numberToString_pads. unfold Number_toString.
  destruct (z <? 0)%Z eqn:E; [apply Z.ltb_lt in E; lia|].
  destruct (digits_fixed (Z.to_N z)) as (m & Hm & Hlt & Hmin).
  rewrite Hm, fixed_width_length.
  specialize (Hmin k Hk).
  replace (S k) with ((S k - S m) + S m)%nat at 2 by lia.
  symmetry. apply fixed_width_pad. exact Hlt.
Qed.

(** ** Date values *)

Ltac in_range := unfold fields_in_range; simpl; lia.

Lemma buildDateString_fixed (l u : DateFields) (useUTC : bool) :
  let f := if useUTC then u else l in
  fields_in_range f -> (0 <= fullYear f <= 9999)%Z ->
  buildDateString (DateOf l u) useUTC = iso_date f.
Proof.
  intros f Hr Hy. unfold fields_in_range in Hr.
  unfold buildDateString, iso_date.
  unfold getUTCFullYear, getFullYear, getUTCMonth, getMonth, getUTCDate,
    getDate, getter.
  destruct useUTC; subst f; cbn [Number_add join];
    rewrite !numberToString_fixed by (cbn [pow10]; lia); reflexivity.
Qed.

Lemma buildTimestamp_fixed (l u : DateFields) :
  fields_in_range u -> buildTimestamp (DateOf l u) = iso_time u.
Proof.
  intros Hr. unfold fields_in_range in Hr.
  unfold buildTimestamp, iso_time.
  unfold getUTCHours, getUTCMinutes, getUTCSeconds, getUTCMilliseconds, getter.
  cbn [join].
  rewrite !numberToString_fixed by (cbn [pow10]; lia).
  rewrite <- !app_assoc. reflexivity.
Qed.

Lemma iso_date_length (f : DateFields) : List.length (iso_date f) = 10%nat.
Proof.
  unfold iso_date. rewrite !length_app, !fixed_width_length. reflexivity.
Qed.

Lemma iso_time_length (f : DateFields) : List.length (iso_time f) = 14%nat.
Proof.
  unfold iso_time. rewrite !length_app, !fixed_width_length. reflexivity.
Qed.

(** C5, as stated, fails: 1 January 10000 is a valid date and its year is
    written with five digits, so the value string is [10000-01-01], eleven
    characters and not the ten of [YYYY-MM-DD]; an invalid date gives
    [0NaN-NaN-NaN]. *)
Lemma date_year_10000_is_wider :
  fields_in_range fields_10000_01_01
  /\ encode_value (VDate date_10000_01_01) (mkOptions false)
     = Ok (lit "10000-01-01", true)
  /\ encode_value (VDate date_10000_01_01) (mkOptions true)
     = Ok (lit "10000-01-01T00:00:00.000Z", true)
  /\ List.length (numberToString (getFullYear date_10000_01_01) 4) = 5%nat
  /\ encode_value (VDate InvalidDate) (mkOptions false)
     = Ok (lit "0NaN-NaN-NaN", true).
Proof. split; [in_range | repeat split; reflexivity]. Qed.

(** C5, amended.  For a valid date whose year is between 0 and 9999 (the
    local year without the time stamp, the UTC year with it) the value
    string is [YYYY-MM-DD] of the local calendar fields when
    [includeTimestamp] is false, and [YYYY-MM-DD] of the UTC calendar
    fields followed by [THH:mm:ss.SSSZ] of the UTC time fields when it is
    true, every component with exactly its width (4, 2, 2 and 2, 2, 2, 3);
    the value is marked for quoting, so that [Equal] and [NotEqual] wrap it
    in double quotes.  For any number, [numberToString] only puts zeros in
    front of a text shorter than the width. *)
Theorem date_value_encoding :
  forall (l u : DateFields) (timestamp : bool),
    let f := if timestamp then u else l in
    fields_in_range f -> (0 <= fullYear f <= 9999)%Z ->
    encode_value (VDate (DateOf l u)) (mkOptions timestamp)
    = Ok (if timestamp then iso_date u ++ iso_time u else iso_date l, true)
    /\ List.length (iso_date f) = 10%nat
    /\ List.length (iso_date f ++ iso_time f) = 24%nat
    /\ (forall valueString,
          quote_if true valueString = [dquote] ++ valueString ++ [dquote])
    /\ (forall (num : JsNumber) (width : nat),
          numberToString num width
          = repeat 48 (width - List.length (Number_toString num))
            ++ Number_toString num).
Proof.
  intros l u timestamp f Hr Hy. split.
  - unfold encode_value. cbn [includeTimestamp bind snd].
    destruct timestamp; subst f.
    + rewrite (buildDateString_fixed l u true Hr Hy).
      rewrite (buildTimestamp_fixed l u Hr). reflexivity.
    + rewrite (buildDateString_fixed l u false Hr Hy). reflexivity.
  - split; [apply iso_date_length|]. split.
    + rewrite length_app, iso_date_length, iso_time_length. reflexivity.
    + split; [reflexivity | apply numberToString_pads].
Qed.

Lemma date_value_encoding_witness :
  encode_value (VDate date_2019_01_05) (mkOptions true)
  = Ok (iso_date fields_2019_01_05 ++ iso_time fields_2019_01_05, true)
  /\ iso_date fields_2019_01_05 ++ iso_time fields_2019_01_05
     = lit "2019-01-05T01:02:03.004Z".
Proof.
  assert (R : fields_in_range fields_2019_01_05) by in_range.
  assert (Y : (0 <= fullYear fields_2019_01_05 <= 9999)%Z) by (simpl; lia).
  split; [|reflexivity].
  apply (date_value_encoding fields_2019_01_05 fields_2019_01_05 true R Y).
Defined.

(** ** encodeURIComponent *)

Ltac Zify.zify_post_hook ::= Z.to_euclidean_division_equations.

Ltac decide_test t :=
  first
    [ replace t with true
        by (symmetry;
            first [apply N.ltb_lt | apply N.leb_le | apply N.eqb_eq]; lia)
    | replace t with false
        by (symmetry;
            first [apply N.ltb_ge | apply N.leb_gt | apply N.eqb_neq]; lia) ].

Ltac decide_tests :=
  repeat match goal with
         | |- context [?a <? ?b] => decide_test (a <? b)
         | |- context [?a <=? ?b] => decide_test (a <=? b)
         | |- context [?a =? ?b] => decide_test (a =? b)
         end.

Lemma list_length_ind {A} (P : list A -> Prop) :
  (forall l, (forall l', (List.length l' < List.length l)%nat -> P l') -> P l) ->
  forall l, P l.
Proof.
  intros H l. remember (List.length l) as n eqn:E. revert l E.
  induction n as [n IH] using lt_wf_ind. intros l E. subst n.
  apply H. intros l' Hl. apply (IH (List.length l') Hl l' eq_refl).
Qed.

Lemma forall_below (P : N -> bool) (k : nat) :
  forallb P (map N.of_nat (seq 0 k)) = true ->
  forall n, n < N.of_nat k -> P n = true.
Proof.
  intros H n Hn. rewrite forallb_forall in H. apply H.
  apply in_map_iff. exists (N.to_nat n). split; [apply N2Nat.id|].
  apply in_seq. lia.
Qed.

Lemma hex_digit_unreserved (x : N) :
  x < 16 -> is_unreserved (hex_digit x) = true.
Proof.
  apply (forall_below (fun x => is_unreserved (hex_digit x)) 16). reflexivity.
Qed.

Lemma hex_value_digit (x : N) : x < 16 -> hex_value (hex_digit x) = Some x.
Proof.
  intro Hx.
  pose proof (forall_below
    (fun x => match hex_value (hex_digit x) with
              | Some y => y =? x
              | None => false
              end) 16 eq_refl x Hx) as H.
  simpl in H. destruct (hex_value (hex_digit x)) as [y|]; [|discriminate].
  apply N.eqb_eq in H. congruence.
Qed.

Lemma encode_cons (c : code_unit) (rest : jsstring) :
  encodeURIComponent (c :: rest)
  = if is_unreserved c then
      r <- encodeURIComponent rest ;; Ok (c :: r)
    else if is_lead_surrogate c then
      match rest with
      | d :: rest' =>
          if is_trail_surrogate d then
            r <- encodeURIComponent rest' ;;
            Ok (pct_code_point (pair_code_point c d) ++ r)
          else Throw URIError
      | [] => Throw URIError
      end
    else if is_trail_surrogate c then Throw URIError
    else r <- encodeURIComponent rest ;; Ok (pct_code_point c ++ r).
Proof. reflexivity. Qed.

(** The relation and the function agree. *)
Lemma encode_Encodes (s : jsstring) :
  forall e, encodeURIComponent s = Ok e -> Encodes s e.
Proof.
  induction s as [s IH] using list_length_ind. intros e H.
  destruct s as [|c rest]; [inversion H; constructor|].
  rewrite encode_cons in H.
  destruct (is_unreserved c) eqn:U.
  - apply bind_Ok in H. destruct H as (r & Hr & E). inversion E; subst e.
    apply Encodes_unreserved; [assumption|]. apply IH; [simpl; lia | exact Hr].
  - destruct (is_lead_surrogate c) eqn:L.
    + destruct rest as [|d rest']; [discriminate|].
      destruct (is_trail_surrogate d) eqn:T; [|discriminate].
      apply bind_Ok in H. destruct H as (r & Hr & E). inversion E; subst e.
      apply Encodes_pair; try assumption. apply IH; [simpl; lia | exact Hr].
    + destruct (is_trail_surrogate c) eqn:T; [discriminate|].
      apply bind_Ok in H. destruct H as (r & Hr & E). inversion E; subst e.
      apply Encodes_escaped; try assumption. apply IH; [simpl; lia | exact Hr].
Qed.

Lemma Encodes_encode (s e : jsstring) :
  Encodes s e -> encodeURIComponent s = Ok e.
Proof.
  induction 1 as [|c s e U _ IH|c s e U L T _ IH|c d s e U L T _ IH];
    [reflexivity|..]; rewrite encode_cons, U.
  - rewrite IH. reflexivity.
  - rewrite L, T, IH. reflexivity.
  - rewrite L, T, IH. reflexivity.
Qed.

(** What comes out is made of unreserved characters and [%XX] escapes. *)
Lemma pct_octets_encoded_chars (l : list N) :
  forallb is_encoded_char (flat_map pct_octet l) = true.
Proof.
  induction l as [|b l IH]; [reflexivity|].
  cbn [flat_map]. rewrite forallb_app, IH, andb_true_r.
  unfold pct_octet. cbn [forallb]. unfold is_encoded_char at 2 3.
  rewrite !hex_digit_unreserved by lia. reflexivity.
Qed.

Lemma Encodes_encoded_chars (s e : jsstring) :
  Encodes s e -> forallb is_encoded_char e = true.
Proof.
  induction 1 as [|c s e U _ IH|c s e U L T _ IH|c d s e U L T _ IH].
  - reflexivity.
  - cbn [forallb]. unfold is_encoded_char at 1. rewrite U, IH. reflexivity.
  - unfold pct_code_point. rewrite forallb_app, IH, pct_octets_encoded_chars.
    reflexivity.
  - unfold pct_code_point. rewrite forallb_app, IH, pct_octets_encoded_chars.
    reflexivity.
Qed.

Lemma encode_encoded_chars (s e : jsstring) :
  encodeURIComponent s = Ok e -> forallb is_encoded_char e = true.
Proof. intro H. apply (Encodes_encoded_chars s e), encode_Encodes, H. Qed.

(** ** Well-formed strings *)

Lemma unreserved_ascii (c : code_unit) :
  is_unreserved c = true -> c < 128.
Proof.
  unfold is_unreserved, is_alpha, is_digit, is_mark. cbn [lit existsb map
    list_ascii_of_string]. intro H.
  repeat (apply orb_true_iff in H; destruct H as [H|H]);
    try (apply andb_true_iff in H; destruct H as [H1 H2];
         apply N.leb_le in H1; apply N.leb_le in H2; lia);
    try (apply N.eqb_eq in H; subst c; reflexivity);
    discriminate.
Qed.

Lemma encoded_char_ascii (c : code_unit) :
  is_encoded_char c = true -> is_ascii c = true.
Proof.
  unfold is_encoded_char, is_ascii. intro H. apply N.ltb_lt.
  apply orb_true_iff in H. destruct H as [H|H].
  - apply unreserved_ascii, H.
  - apply N.eqb_eq in H. subst c. reflexivity.
Qed.

Lemma ascii_not_surrogate (c : code_unit) :
  c < 128 ->
  is_code_unit c = true /\ is_lead_surrogate c = false
  /\ is_trail_surrogate c = false.
Proof.
  intro H. unfold is_code_unit, is_lead_surrogate, is_trail_surrogate.
  decide_tests. auto.
Qed.

Lemma well_formed_cons (c : code_unit) (rest : jsstring) :
  well_formed (c :: rest)
  = is_code_unit c &&
    (if is_lead_surrogate c then
       match rest with
       | d :: rest' => is_trail_surrogate d && well_formed rest'
       | [] => false
       end
     else negb (is_trail_surrogate c) && well_formed rest).
Proof. reflexivity. Qed.

Lemma well_formed_plain (c : code_unit) (rest : jsstring) :
  is_code_unit c = true -> is_lead_surrogate c = false ->
  is_trail_surrogate c = false ->
  well_formed (c :: rest) = well_formed rest.
Proof. intros U L T. rewrite well_formed_cons, U, L, T. reflexivity. Qed.

Lemma ascii_well_formed (s : jsstring) :
  forallb is_ascii s = true -> well_formed s = true.
Proof.
  induction s as [|c s IH]; [reflexivity|]. cbn [forallb].
  intro H. apply andb_true_iff in H. destruct H as [Hc Hs].
  apply N.ltb_lt in Hc.
  destruct (ascii_not_surrogate c Hc) as (U & L & T).
  rewrite well_formed_plain by assumption. auto.
Qed.

Lemma well_formed_app (s t : jsstring) :
  well_formed s = true -> well_formed t = true -> well_formed (s ++ t) = true.
Proof.
  revert t. induction s as [s IH] using list_length_ind. intros t Hs Ht.
  destruct s as [|c rest]; [exact Ht|].
  rewrite well_formed_cons in Hs. cbn [app]. rewrite well_formed_cons.
  apply andb_true_iff in Hs. destruct Hs as [U Hs]. rewrite U. cbn [andb].
  destruct (is_lead_surrogate c).
  - destruct rest as [|d rest']; [discriminate|]. cbn [app].
    apply andb_true_iff in Hs. destruct Hs as [T Hs]. rewrite T. cbn [andb].
    apply IH; [simpl; lia | assumption | assumption].
  - apply andb_true_iff in Hs. destruct Hs as [T Hs]. rewrite T. cbn [andb].
    apply IH; [simpl; lia | assumption | assumption].
Qed.

(** A well-formed string is encoded, and only a well-formed one is. *)
Lemma well_formed_Encodes (s : jsstring) :
  well_formed s = true -> exists e, Encodes s e.
Proof.
  induction s as [s IH] using list_length_ind. intro H.
  destruct s as [|c rest]; [exists []; constructor|].
  rewrite well_formed_cons in H.
  apply andb_true_iff in H. destruct H as [U H].
  destruct (is_lead_surrogate c) eqn:L.
  - destruct rest as [|d rest']; [discriminate|].
    apply andb_true_iff in H. destruct H as [T H].
    destruct (IH rest') as [e He]; [simpl; lia | exact H |].
    exists (pct_code_point (pair_code_point c d) ++ e).
    apply Encodes_pair; try assumption.
    destruct (is_unreserved c) eqn:Un; [|reflexivity].
    apply unreserved_ascii, ascii_not_surrogate in Un. intuition congruence.
  - apply andb_true_iff in H. destruct H as [T H].
    apply negb_true_iff in T.
    destruct (IH rest) as [e He]; [simpl; lia | exact H |].
    destruct (is_unreserved c) eqn:Un.
    + exists (c :: e). apply Encodes_unreserved; assumption.
    + exists (pct_code_point c ++ e). apply Encodes_escaped; assumption.
Qed.

Lemma well_formed_encodes (s : jsstring) :
  well_formed s = true -> exists e, encodeURIComponent s = Ok e.
Proof.
  intro H. destruct (well_formed_Encodes s H) as [e He].
  exists e. apply Encodes_encode, He.
Qed.

Lemma Encodes_well_formed (s e : jsstring) :
  Encodes s e -> code_units s = true -> well_formed s = true.
Proof.
  unfold code_units.
  induction 1 as [|c s e U _ IH|c s e U L T _ IH|c d s e U L T _ IH];
    cbn [forallb]; intro H.
  - reflexivity.
  - apply andb_true_iff in H. destruct H as [Hc Hs].
    destruct (ascii_not_surrogate c (unreserved_ascii c U)) as (_ & L & T).
    rewrite well_formed_plain by assumption. auto.
  - apply andb_true_iff in H. destruct H as [Hc Hs].
    rewrite well_formed_plain by assumption. auto.
  - apply andb_true_iff in H. destruct H as [Hc H].
    apply andb_true_iff in H. destruct H as [Hd Hs].
    rewrite well_formed_cons, Hc, L, T, IH by assumption. reflexivity.
Qed.

Lemma well_formed_code_units (s : jsstring) :
  well_formed s = true -> code_units s = true.
Proof.
  unfold code_units.
  induction s as [s IH] using list_length_ind. intro H.
  destruct s as [|c rest]; [reflexivity|].
  rewrite well_formed_cons in H.
  apply andb_true_iff in H. destruct H as [U H]. cbn [forallb]. rewrite U.
  destruct (is_lead_surrogate c).
  - destruct rest as [|d rest']; [discriminate|].
    apply andb_true_iff in H. destruct H as [T H]. cbn [forallb andb].
    rewrite (IH rest') by (simpl; lia || assumption).
    unfold is_trail_surrogate in T. apply andb_true_iff in T.
    destruct T as [T1 T2]. apply N.leb_le in T2.
    unfold is_code_unit. decide_tests. reflexivity.
  - apply andb_true_iff in H. destruct H as [_ H].
    apply IH; [simpl; lia | exact H].
Qed.

(** Escaping and quoting keep a string well formed. *)
Lemma replace_all_cons (c x : code_unit) (by_ s : jsstring) :
  replace_all c by_ (x :: s)
  = (if x =? c then by_ else [x]) ++ replace_all c by_ s.
Proof. reflexivity. Qed.

Lemma replace_all_app (c : code_unit) (by_ s t : jsstring) :
  replace_all c by_ (s ++ t) = replace_all c by_ s ++ replace_all c by_ t.
Proof. apply flat_map_app. Qed.

Lemma escape_cons (c : code_unit) (s : jsstring) :
  escape (c :: s) = escape_char c ++ escape s.
Proof.
  unfold escape. rewrite replace_all_cons, replace_all_app. f_equal.
  unfold escape_char. destruct (c =? backslash); [reflexivity|].
  rewrite replace_all_cons. apply app_nil_r.
Qed.

Lemma escape_flat_map (s : jsstring) : escape s = flat_map escape_char s.
Proof.
  induction s as [|c s IH]; [reflexivity|].
  rewrite escape_cons, IH. reflexivity.
Qed.

Lemma surrogate_escape_char (c : code_unit) :
  is_lead_surrogate c || is_trail_surrogate c = true -> escape_char c = [c].
Proof.
  unfold is_lead_surrogate, is_trail_surrogate, escape_char, backslash, dquote.
  intro H. apply orb_true_iff in H.
  destruct H as [H|H]; apply andb_true_iff in H; destruct H as [H1 H2];
    apply N.leb_le in H1; apply N.leb_le in H2; decide_tests; reflexivity.
Qed.

Lemma well_formed_escape_char (c : code_unit) :
  is_code_unit c = true -> is_lead_surrogate c = false ->
  is_trail_surrogate c = false -> well_formed (escape_char c) = true.
Proof.
  intros U L T. unfold escape_char.
  destruct (c =? backslash); [reflexivity|].
  destruct (c =? dquote); [reflexivity|].
  rewrite well_formed_plain by assumption. reflexivity.
Qed.

Lemma well_formed_escape (s : jsstring) :
  well_formed s = true -> well_formed (escape s) = true.
Proof.
  induction s as [s IH] using list_length_ind. intro H.
  destruct s as [|c rest]; [reflexivity|].
  rewrite well_formed_cons in H.
  apply andb_true_iff in H. destruct H as [U H].
  destruct (is_lead_surrogate c) eqn:L.
  - destruct rest as [|d rest']; [discriminate|].
    apply andb_true_iff in H. destruct H as [T H].
    rewrite !escape_cons, !surrogate_escape_char
      by (rewrite ?L, ?T, ?orb_true_r; reflexivity).
    cbn [app]. rewrite well_formed_cons, U, L, T. cbn [andb].
    apply IH; [simpl; lia | exact H].
  - apply andb_true_iff in H. destruct H as [T H].
    apply negb_true_iff in T. rewrite escape_cons.
    apply well_formed_app.
    + apply well_formed_escape_char; assumption.
    + apply IH; [simpl; lia | exact H].
Qed.

Lemma well_formed_quote (s : jsstring) :
  well_formed s = true -> well_formed (quote (PString s)) = true.
Proof.
  intro H. unfold quote, ToString.
  apply (well_formed_app [dquote]); [reflexivity|].
  apply well_formed_app; [exact H | reflexivity].
Qed.

Create HintDb wf.
#[local] Hint Resolve well_formed_app well_formed_quote well_formed_escape : wf.

(** ** Texts made of ASCII characters *)

Lemma forallb_weaken {A} (p q : A -> bool) (l : list A) :
  (forall x, p x = true -> q x = true) ->
  forallb p l = true -> forallb q l = true.
Proof.
  intros Hpq. induction l as [|x l IH]; [reflexivity|]. cbn [forallb].
  intro H. apply andb_true_iff in H. destruct H as [Hx Hl].
  rewrite (Hpq x Hx), (IH Hl). reflexivity.
Qed.

Lemma all_ascii_app (s t : jsstring) :
  all_ascii (s ++ t) = all_ascii s && all_ascii t.
Proof. apply forallb_app. Qed.

Lemma all_ascii_well_formed (s : jsstring) :
  all_ascii s = true -> well_formed s = true.
Proof. apply ascii_well_formed. Qed.

Lemma fixed_width_ascii (w : nat) (n : N) : all_ascii (fixed_width w n) = true.
Proof.
  revert n. induction w as [|w IH]; intro n; [reflexivity|].
  rewrite fixed_width_S, all_ascii_app, IH. cbn [all_ascii forallb andb].
  unfold is_ascii. decide_tests. reflexivity.
Qed.

Lemma digits_ascii (n : N) : all_ascii (digits n) = true.
Proof.
  destruct (digits_fixed n) as (m & Hm & _). rewrite Hm.
  apply fixed_width_ascii.
Qed.

Lemma Number_toString_ascii (n : JsNumber) :
  all_ascii (Number_toString n) = true.
Proof.
  destruct n as [z| |[|]]; try reflexivity. unfold Number_toString.
  destruct (z <? 0)%Z; [|apply digits_ascii].
  change (all_ascii (ch "-" :: digits (Z.to_N (- z))))
    with (is_ascii (ch "-") && all_ascii (digits (Z.to_N (- z)))).
  rewrite digits_ascii. reflexivity.
Qed.

Lemma repeat_zero_ascii (k : nat) : all_ascii (repeat 48 k) = true.
Proof. induction k as [|k IH]; [reflexivity|]. cbn. exact IH. Qed.

Lemma numberToString_ascii (num : JsNumber) (k : nat) :
  all_ascii (numberToString num k) = true.
Proof.
  rewrite numberToString_pads, all_ascii_app, repeat_zero_ascii,
    Number_toString_ascii. reflexivity.
Qed.

Lemma join_ascii (sep : jsstring) (l : list jsstring) :
  all_ascii sep = true -> forallb all_ascii l = true ->
  all_ascii (join sep l) = true.
Proof.
  intro Hsep. induction l as [|x t IH]; [reflexivity|].
  cbn [forallb]. intro H. apply andb_true_iff in H. destruct H as [Hx Ht].
  destruct t as [|y t']; [exact Hx|].
  change (join sep (x :: y :: t')) with (x ++ sep ++ join sep (y :: t')).
  rewrite !all_ascii_app, Hx, Hsep, (IH Ht). reflexivity.
Qed.

Lemma buildDateString_ascii (d : JsDate) (useUTC : bool) :
  all_ascii (buildDateString d useUTC) = true.
Proof.
  unfold buildDateString. apply join_ascii; [reflexivity|].
  cbn [forallb]. rewrite !numberToString_ascii. reflexivity.
Qed.

Lemma buildTimestamp_ascii (d : JsDate) :
  all_ascii (buildTimestamp d) = true.
Proof.
  unfold buildTimestamp.
  rewrite !all_ascii_app, numberToString_ascii, join_ascii;
    [reflexivity | reflexivity |].
  cbn [forallb]. rewrite !numberToString_ascii. reflexivity.
Qed.

Lemma encode_ascii (s e : jsstring) :
  encodeURIComponent s = Ok e -> all_ascii e = true.
Proof.
  intro H. apply (forallb_weaken is_encoded_char is_ascii).
  - apply encoded_char_ascii.
  - apply (encode_encoded_chars s), H.
Qed.

(** ** [build] returns on well-formed strings *)

Lemma item_text_returns (i : Prim) :
  item_well_formed i = true ->
  exists t, item_text i = Ok t /\ all_ascii t = true.
Proof.
  intro H.
  assert (W : forall x, well_formed x = true ->
                exists t, encodeURIComponent ([dquote] ++ x ++ [dquote]) = Ok t
                          /\ all_ascii t = true).
  { intros x Hx.
    destruct (well_formed_encodes _ (well_formed_quote x Hx)) as [t Ht].
    exists t. split; [exact Ht | apply (encode_ascii _ _ Ht)]. }
  destruct i as [s|n|b| |]; cbn [item_text item_well_formed] in *.
  - apply W, well_formed_escape, H.
  - exists (Number_toString n). split; [reflexivity|].
    apply Number_toString_ascii.
  - apply W. destruct b; reflexivity.
  - apply W. reflexivity.
  - apply W. reflexivity.
Qed.

Lemma mapM_item_text_returns (l : list Prim) :
  forallb item_well_formed l = true ->
  exists parts, mapM item_text l = Ok parts
                /\ forallb all_ascii parts = true.
Proof.
  induction l as [|i l IH]; cbn [forallb mapM]; intro H.
  - exists []. split; reflexivity.
  - apply andb_true_iff in H. destruct H as [Hi Hl].
    destruct (item_text_returns i Hi) as (t & Ht & At).
    destruct (IH Hl) as (parts & Hp & Ap).
    exists (t :: parts). rewrite Ht, Hp. split; [reflexivity|].
    cbn [forallb]. rewrite At, Ap. reflexivity.
Qed.

Lemma keep_defined_well_formed (items : list Prim) :
  forallb item_well_formed items = true ->
  forallb item_well_formed (keep_defined items) = true.
Proof.
  intro H. apply forallb_forall. intros x Hx.
  apply keep_defined_In in Hx. destruct Hx as [Hx _].
  rewrite forallb_forall in H. apply H, Hx.
Qed.

Lemma encode_value_returns (v : Value) (opts : RSQLFilterExpressionOptions) :
  value_well_formed v = true ->
  exists valueString shouldQuote,
    encode_value v opts = Ok (valueString, shouldQuote)
    /\ well_formed valueString = true.
Proof.
  intro H. destruct v as [s|n|b|items|d| | |].
  - exists (escape s), true. split; [reflexivity|].
    apply well_formed_escape, H.
  - exists (Number_toString n), false. split; [reflexivity|].
    apply all_ascii_well_formed, Number_toString_ascii.
  - exists (if b then lit "true" else lit "false"), false.
    split; [reflexivity | destruct b; reflexivity].
  - cbn [value_well_formed] in H.
    destruct (mapM_item_text_returns _ (keep_defined_well_formed _ H))
      as (parts & Hp & Ap).
    exists (join (lit ",") parts), false.
    rewrite encode_value_array, Hp. split; [reflexivity|].
    apply all_ascii_well_formed, join_ascii; [reflexivity | exact Ap].
  - exists (if includeTimestamp opts
            then buildDateString d true ++ buildTimestamp d
            else buildDateString d false), true.
    split; [reflexivity|]. apply all_ascii_well_formed.
    destruct (includeTimestamp opts).
    + rewrite all_ascii_app, buildDateString_ascii, buildTimestamp_ascii.
      reflexivity.
    + apply buildDateString_ascii.
  - exists (lit "null"), false. split; reflexivity.
  - exists [], false. split; reflexivity.
  - exists [], false. split; reflexivity.
Qed.

Lemma encode_then_returns (x : jsstring) (k : jsstring -> jsstring) :
  well_formed x = true ->
  exists r, (e <- encodeURIComponent x ;; Ok (k e)) = Ok r.
Proof.
  intro H. destruct (well_formed_encodes x H) as [e He].
  exists (k e). rewrite He. reflexivity.
Qed.

Lemma operator_suffix_returns (op : Operators) (valueString : jsstring)
    (shouldQuote : bool) :
  well_formed valueString = true ->
  exists r, operator_suffix op valueString shouldQuote = Ok r.
Proof.
  intro H.
  destruct op; cbn [operator_suffix];
    try (eexists; reflexivity);
    apply encode_then_returns;
    try (unfold quote_if; destruct shouldQuote);
    auto with wf.
Qed.

(** C7, as stated, fails: a string value holding an unpaired surrogate
    ([0xD800] alone) is a string like any other, and under [Equal] it
    reaches [encodeURIComponent], which raises [URIError]; [build] has no
    handler, so the exception leaves it.  The same happens for an array
    with such a string, whatever the operator. *)
Lemma build_raises_on_unpaired_surrogate :
  build (new_RSQLFilterExpression (lit "code") (ArgOperator Equal)
           (VString [55296]))
  = Throw URIError
  /\ build (new_RSQLFilterExpression (lit "code") (ArgOperator IsNull)
             (VArray [PString [55296]]))
     = Throw URIError
  /\ code_units [55296] = true.
Proof. repeat split; reflexivity. Qed.

(** C7, amended.  [build] raises nothing when the expression has no custom
    operator and every string of its value (the value, or the string
    elements of an array value) is free of unpaired surrogates.  A value of
    none of the supported types gives the empty value string, to which the
    operator token is applied as to any other; and with neither a built-in
    nor a custom operator the result is the field alone. *)
Theorem build_returns :
  forall (e : RSQLFilterExpression),
    customOperator e = None ->
    value_well_formed (value e) = true ->
    (exists out, build e = Ok out)
    /\ (operator e = None -> build e = Ok (field e))
    /\ (forall opts, encode_value VUndefined opts = Ok ([], false))
    /\ (forall opts, encode_value VOther opts = Ok ([], false))
    /\ (forall f (op : Operators) opts,
          build (mkExpression f (Some op) None VOther opts)
          = fmap (app f) (operator_suffix op [] false))
    /\ (forall f (op : Operators) opts,
          build (mkExpression f (Some op) None VUndefined opts)
          = fmap (app f) (operator_suffix op [] false)).
Proof.
  intros e Hc Hv.
  destruct (encode_value_returns (value e) (options e) Hv)
    as (vs & sq & Hev & Hwf).
  split; [|split; [|repeat split]].
  - unfold build. rewrite Hev, Hc. cbn [bind fst snd].
    destruct (operator e) as [[op|c|c|]|]; try (eexists; reflexivity).
    destruct (operator_suffix_returns op vs sq Hwf) as [r Hr].
    exists (field e ++ r). rewrite Hr. reflexivity.
  - intro Ho. unfold build. rewrite Hev, Hc, Ho. reflexivity.
Qed.

Lemma build_returns_witness :
  (exists out,
     build (new_RSQLFilterExpression (lit "code") (ArgOperator Like)
              (VArray [PString (lit "a b"); PNull; PNumber (NInt 7)]))
     = Ok out)
  /\ build (mkExpression (lit "code") None None VOther default_options)
     = Ok (lit "code").
Proof.
  split.
  - apply (build_returns
             (new_RSQLFilterExpression (lit "code") (ArgOperator Like)
                (VArray [PString (lit "a b"); PNull; PNumber (NInt 7)])));
      reflexivity.
  - apply (build_returns
             (mkExpression (lit "code") None None VOther default_options));
      reflexivity.
Defined.

(** ** URL-safe output *)

Lemma encoded_char_url_safe (c : code_unit) :
  is_encoded_char c = true -> url_safe c = true.
Proof.
  unfold url_safe, is_encoded_char. intro H. rewrite H. reflexivity.
Qed.

Lemma unreserved_url_safe (c : code_unit) :
  is_unreserved c = true -> url_safe c = true.
Proof. unfold url_safe. intro H. rewrite H. reflexivity. Qed.

Lemma token_then_encoded (token x out : jsstring) :
  forallb url_safe token = true ->
  (e <- encodeURIComponent x ;; Ok (token ++ e)) = Ok out ->
  forallb url_safe out = true.
Proof.
  intros Ht H. apply bind_Ok in H. destruct H as (e & He & E).
  inversion E; subst out. rewrite forallb_app, Ht. cbn [andb].
  apply (forallb_weaken is_encoded_char url_safe).
  - apply encoded_char_url_safe.
  - apply (encode_encoded_chars x), He.
Qed.

Lemma operator_suffix_url_safe (op : Operators) (valueString r : jsstring)
    (shouldQuote : bool) :
  appends_raw_value op = false ->
  operator_suffix op valueString shouldQuote = Ok r ->
  forallb url_safe r = true.
Proof.
  intros Hraw H.
  destruct op; try discriminate Hraw; cbn [operator_suffix] in H;
    try (apply token_then_encoded in H; [exact H | reflexivity]);
    inversion H; reflexivity.
Qed.

(** C6, as stated, fails: the comparison operators (and [In], [NotIn])
    append the value string as it is, so a string value with a space keeps
    its space: field [f], [GreaterThan], value [a b] build to [f%3Ea b]. *)
Lemma GreaterThan_keeps_space :
  forallb is_unreserved (lit "f") = true
  /\ build (new_RSQLFilterExpression (lit "f") (ArgOperator GreaterThan)
             (VString (lit "a b")))
     = Ok (lit "f%3Ea b")
  /\ existsb (N.eqb (ch " ")) (lit "f%3Ea b") = true
  /\ forallb url_safe (lit "f%3Ea b") = false.
Proof. repeat split; reflexivity. Qed.

(** C6, amended.  For a built-in operator other than the six that append
    the value string unencoded ([GreaterThan], [GreaterThanEqualTo],
    [LessThan], [LessThanEqualTo], [In], [NotIn]) and a field of unreserved
    characters, every string [build] returns is made of unreserved
    characters, percent signs and equals signs only: it holds no space and
    no reserved character besides the [=] of the operator token. *)
Theorem encoding_operators_url_safe :
  forall (e : RSQLFilterExpression) (op : Operators) (out : jsstring),
    customOperator e = None ->
    operator e = Some op ->
    appends_raw_value op = false ->
    forallb is_unreserved (field e) = true ->
    build e = Ok out ->
    forallb url_safe out = true /\ ~ List.In (ch " ") out.
Proof.
  intros e op out Hc Ho Hraw Hf H.
  assert (S : forallb url_safe out = true).
  { unfold build in H. apply bind_Ok in H. destruct H as (st & _ & H).
    rewrite Hc, Ho in H. apply bind_Ok in H. destruct H as (r & Hr & E).
    inversion E; subst out. rewrite forallb_app.
    rewrite (forallb_weaken is_unreserved url_safe _ unreserved_url_safe Hf).
    apply (operator_suffix_url_safe op _ _ _ Hraw Hr). }
  split; [exact S|]. intro Hin.
  rewrite forallb_forall in S. specialize (S _ Hin). discriminate S.
Qed.

Lemma encoding_operators_url_safe_witness :
  forallb url_safe (lit "name==%22*a%20b*%22") = true
  /\ ~ List.In (ch " ") (lit "name==%22*a%20b*%22").
Proof.
  apply (encoding_operators_url_safe
           (new_RSQLFilterExpression (lit "name") (ArgOperator Contains)
              (VString (lit "a b")))
           Contains); reflexivity.
Defined.

(** ** Decoding what [build] encoded *)

Lemma pct_tokens_plain (c : code_unit) (e : jsstring) :
  (c =? ch "%") = false ->
  pct_tokens (c :: e) = option_map (cons (Plain c)) (pct_tokens e).
Proof. intro H. cbn [pct_tokens]. rewrite H. reflexivity. Qed.

Lemma pct_tokens_octet (b : N) (e : jsstring) :
  b < 256 ->
  pct_tokens (pct_octet b ++ e) = option_map (cons (Octet b)) (pct_tokens e).
Proof.
  intro Hb. unfold pct_octet. cbn [app pct_tokens].
  rewrite N.eqb_refl, !hex_value_digit by lia.
  replace (16 * ((b / 16) mod 16) + b mod 16) with b by lia.
  destruct (pct_tokens e); reflexivity.
Qed.

Lemma pct_tokens_octets (l : list N) (e : jsstring) :
  Forall (fun b => b < 256) l ->
  pct_tokens (flat_map pct_octet l ++ e)
  = option_map (app (map Octet l)) (pct_tokens e).
Proof.
  induction 1 as [|b l Hb _ IH]; cbn [flat_map map app].
  - destruct (pct_tokens e); reflexivity.
  - rewrite <- app_assoc, pct_tokens_octet, IH by exact Hb.
    destruct (pct_tokens e); reflexivity.
Qed.

Lemma utf8_octets (cp : N) :
  cp < 1114112 -> Forall (fun b => b < 256) (utf8 cp).
Proof.
  intro H. unfold utf8.
  destruct (cp <? 128) eqn:E1; [apply N.ltb_lt in E1|apply N.ltb_ge in E1].
  { repeat constructor; lia. }
  destruct (cp <? 2048) eqn:E2; [apply N.ltb_lt in E2|apply N.ltb_ge in E2].
  { repeat constructor; lia. }
  destruct (cp <? 65536) eqn:E3; [apply N.ltb_lt in E3|apply N.ltb_ge in E3];
    repeat constructor; lia.
Qed.

Lemma scalar_in_range (lo hi cp : N) :
  lo <= cp -> cp <= hi ->
  is_lead_surrogate cp = false -> is_trail_surrogate cp = false ->
  scalar_in lo hi cp = true.
Proof.
  intros H1 H2 L T. unfold scalar_in. rewrite L, T.
  decide_tests. reflexivity.
Qed.

Lemma utf8_tokens_code_point (cp : N) (ts : list Token) :
  cp < 1114112 ->
  is_lead_surrogate cp = false -> is_trail_surrogate cp = false ->
  utf8_tokens (map Octet (utf8 cp) ++ ts)
  = option_map (app (utf16 cp)) (utf8_tokens ts).
Proof.
  intros H L T. unfold utf8.
  destruct (cp <? 128) eqn:E1; [apply N.ltb_lt in E1|apply N.ltb_ge in E1].
  { cbn [map app utf8_tokens]. unfold utf16. decide_tests.
    destruct (utf8_tokens ts); reflexivity. }
  destruct (cp <? 2048) eqn:E2; [apply N.ltb_lt in E2|apply N.ltb_ge in E2].
  { cbn [map app utf8_tokens continuation]. decide_tests. cbn [andb].
    replace ((192 + cp / 64 - 192) * 64 + (128 + cp mod 64 - 128))
      with cp by lia.
    rewrite scalar_in_range by (assumption || lia).
    unfold utf16. decide_tests.
    destruct (utf8_tokens ts); reflexivity. }
  destruct (cp <? 65536) eqn:E3; [apply N.ltb_lt in E3|apply N.ltb_ge in E3].
  { cbn [map app utf8_tokens continuation]. decide_tests. cbn [andb].
    replace ((224 + cp / 4096 - 224) * 4096
             + (128 + (cp / 64) mod 64 - 128) * 64 + (128 + cp mod 64 - 128))
      with cp by lia.
    rewrite scalar_in_range by (assumption || lia).
    unfold utf16. decide_tests.
    destruct (utf8_tokens ts); reflexivity. }
  cbn [map app utf8_tokens continuation]. decide_tests. cbn [andb].
  replace ((240 + cp / 262144 - 240) * 262144
           + (128 + (cp / 4096) mod 64 - 128) * 4096
           + (128 + (cp / 64) mod 64 - 128) * 64 + (128 + cp mod 64 - 128))
    with cp by lia.
  rewrite scalar_in_range by (assumption || lia).
  unfold utf16. decide_tests.
  destruct (utf8_tokens ts); reflexivity.
Qed.

Lemma percent_decode_code_point (cp : N) (e s : jsstring) :
  cp < 1114112 ->
  is_lead_surrogate cp = false -> is_trail_surrogate cp = false ->
  percent_decode e = Some s ->
  percent_decode (pct_code_point cp ++ e) = Some (utf16 cp ++ s).
Proof.
  intros H L T He. unfold percent_decode in *. unfold pct_code_point.
  rewrite pct_tokens_octets by (apply utf8_octets, H).
  destruct (pct_tokens e) as [ts|]; [|discriminate]. cbn [option_map].
  rewrite utf8_tokens_code_point, He by assumption. reflexivity.
Qed.

Lemma pair_code_point_range (c d : code_unit) :
  is_lead_surrogate c = true -> is_trail_surrogate d = true ->
  let cp := pair_code_point c d in
  cp < 1114112 /\ is_lead_surrogate cp = false
  /\ is_trail_surrogate cp = false /\ utf16 cp = [c; d].
Proof.
  unfold is_lead_surrogate, is_trail_surrogate, pair_code_point, utf16.
  intros L T.
  apply andb_true_iff in L. destruct L as [L1 L2].
  apply andb_true_iff in T. destruct T as [T1 T2].
  apply N.leb_le in L1, L2, T1, T2. cbv zeta.
  split; [lia|]. decide_tests. repeat split. f_equal; [lia|]. f_equal. lia.
Qed.

(** Percent-decoding undoes [encodeURIComponent]. *)
Lemma Encodes_decode (s e : jsstring) :
  Encodes s e -> code_units s = true -> percent_decode e = Some s.
Proof.
  unfold code_units.
  induction 1 as [|c s e U _ IH|c s e U L T _ IH|c d s e U L T _ IH];
    cbn [forallb]; intro H.
  - reflexivity.
  - apply andb_true_iff in H. destruct H as [_ Hs]. specialize (IH Hs).
    unfold percent_decode in *.
    rewrite pct_tokens_plain.
    + destruct (pct_tokens e) as [ts|]; [|discriminate].
      cbn [option_map utf8_tokens]. rewrite IH. reflexivity.
    + destruct (c =? ch "%") eqn:E; [|reflexivity].
      apply N.eqb_eq in E. subst c. discriminate U.
  - apply andb_true_iff in H. destruct H as [Hc Hs]. specialize (IH Hs).
    unfold is_code_unit in Hc. apply N.ltb_lt in Hc.
    rewrite (percent_decode_code_point c e s) by (assumption || lia).
    unfold utf16. decide_tests. reflexivity.
  - apply andb_true_iff in H. destruct H as [_ H].
    apply andb_true_iff in H. destruct H as [_ Hs]. specialize (IH Hs).
    destruct (pair_code_point_range c d L T) as (R & L' & T' & E).
    rewrite (percent_decode_code_point _ e s R L' T' IH), E. reflexivity.
Qed.

Lemma encode_decode (s e : jsstring) :
  well_formed s = true -> encodeURIComponent s = Ok e ->
  percent_decode e = Some s.
Proof.
  intros W H. apply Encodes_decode; [apply encode_Encodes, H|].
  apply well_formed_code_units, W.
Qed.

Lemma strip_quotes_quote (x : jsstring) :
  strip_quotes (quote (PString x)) = Some x.
Proof.
  unfold quote, ToString, strip_quotes. cbn [app].
  rewrite rev_unit, N.eqb_refl, rev_involutive. reflexivity.
Qed.

Lemma unescape_escape (s : jsstring) : unescape (escape s) = Some s.
Proof.
  induction s as [|c s IH]; [reflexivity|].
  rewrite escape_cons. unfold escape_char.
  destruct (c =? backslash) eqn:B.
  - apply N.eqb_eq in B. subst c. cbn [app unescape].
    rewrite N.eqb_refl. cbn [orb]. rewrite IH. reflexivity.
  - destruct (c =? dquote) eqn:Q.
    + apply N.eqb_eq in Q. subst c. cbn [app unescape].
      rewrite !N.eqb_refl, orb_true_r, IH. reflexivity.
    + cbn [app unescape]. rewrite B, IH. reflexivity.
Qed.

Lemma string_value_decodes (s e : jsstring) :
  well_formed s = true -> encode_string_value s = Ok e ->
  decode_string_value e = Some s.
Proof.
  intros W H. unfold encode_string_value in H. unfold decode_string_value.
  rewrite (encode_decode _ e (well_formed_quote _ (well_formed_escape s W)) H).
  rewrite strip_quotes_quote. apply unescape_escape.
Qed.

(** C2, as stated, fails: the string made of the single code unit [0xD800]
    has no encoding, [encodeURIComponent] raises [URIError] on it, so
    there is nothing to decode. *)
Lemma unpaired_surrogate_has_no_encoding :
  code_units [55296] = true
  /\ well_formed [55296] = false
  /\ encode_string_value [55296] = Throw URIError.
Proof. repeat split; reflexivity. Qed.

(** C2, amended.  For every string without unpaired surrogates the
    string-value encoding of [build] (escape the backslashes, then the
    double quotes, wrap in double quotes, percent-encode) succeeds, and
    percent-decoding the result, stripping the surrounding quotes and
    undoing the two escapes gives the string back; hence no other such
    string has the same encoding. *)
Theorem string_value_round_trip :
  forall (s : jsstring),
    well_formed s = true ->
    (exists e, encode_string_value s = Ok e
               /\ decode_string_value e = Some s)
    /\ (forall s' e, well_formed s' = true ->
                     encode_string_value s = Ok e ->
                     encode_string_value s' = Ok e -> s' = s).
Proof.
  intros s W. split.
  - destruct (well_formed_encodes _
                (well_formed_quote _ (well_formed_escape s W))) as [e He].
    exists e. split; [exact He|]. apply string_value_decodes; assumption.
  - intros s' e W' H H'.
    pose proof (string_value_decodes s e W H) as D.
    pose proof (string_value_decodes s' e W' H') as D'.
    congruence.
Qed.

Lemma string_value_round_trip_witness :
  exists e,
    encode_string_value [97; 92; 34; 55357; 56832; 233; 8364] = Ok e
    /\ decode_string_value e = Some [97; 92; 34; 55357; 56832; 233; 8364].
Proof.
  apply (string_value_round_trip [97; 92; 34; 55357; 56832; 233; 8364]).
  reflexivity.
Defined.

(* ================================================================== *)
(** * Further properties of [rsql-filter-expression.ts] *)

(** ** Percent-encoding next to ASCII text *)

Lemma encode_plain_cons (c : code_unit) (rest : jsstring) :
  is_ascii c = true ->
  encodeURIComponent (c :: rest)
  = fmap (app (if is_unreserved c then [c] else pct_octet c))
      (encodeURIComponent rest).
Proof.
  intro A. apply N.ltb_lt in A.
  destruct (ascii_not_surrogate c A) as (_ & L & T).
  rewrite encode_cons, L, T.
  destruct (is_unreserved c).
  - destruct (encodeURIComponent rest); reflexivity.
  - unfold pct_code_point, utf8. decide_tests. cbn [flat_map].
    rewrite app_nil_r. destruct (encodeURIComponent rest); reflexivity.
Qed.

Lemma encode_prefix_ascii (a x : jsstring) :
  all_ascii a = true ->
  encodeURIComponent (a ++ x)
  = fmap (app (pct_ascii a)) (encodeURIComponent x).
Proof.
  induction a as [|c a IH]; cbn [all_ascii forallb app]; intro H.
  - destruct (encodeURIComponent x); reflexivity.
  - apply andb_true_iff in H. destruct H as [Hc Ha].
    rewrite (encode_plain_cons c (a ++ x) Hc), (IH Ha), fmap_fmap.
    unfold pct_ascii. cbn [flat_map].
    destruct (encodeURIComponent x); cbn [fmap bind]; [|reflexivity].
    rewrite app_assoc. reflexivity.
Qed.

Lemma encode_ascii_total (s : jsstring) :
  all_ascii s = true -> encodeURIComponent s = Ok (pct_ascii s).
Proof.
  intro H. rewrite <- (app_nil_r s) at 1.
  rewrite (encode_prefix_ascii s [] H). cbn [encodeURIComponent fmap bind].
  rewrite app_nil_r. reflexivity.
Qed.

Lemma encode_suffix_ascii (b : jsstring) :
  all_ascii b = true ->
  forall x,
    encodeURIComponent (x ++ b)
    = fmap (fun e => e ++ pct_ascii b) (encodeURIComponent x).
Proof.
  intros Hb x. induction x as [x IH] using list_length_ind.
  destruct x as [|c rest].
  - cbn [app]. rewrite (encode_ascii_total b Hb). reflexivity.
  - cbn [app]. rewrite !encode_cons.
    destruct (is_unreserved c).
    + rewrite IH by (simpl; lia).
      destruct (encodeURIComponent rest); reflexivity.
    + destruct (is_lead_surrogate c).
      * destruct rest as [|d rest']; cbn [app].
        -- destruct b as [|d b']; [reflexivity|].
           cbn [all_ascii forallb] in Hb. apply andb_true_iff in Hb.
           destruct Hb as [Hd _]. apply N.ltb_lt in Hd.
           destruct (ascii_not_surrogate d Hd) as (_ & _ & T).
           rewrite T. reflexivity.
        -- destruct (is_trail_surrogate d); [|reflexivity].
           rewrite IH by (simpl; lia).
           destruct (encodeURIComponent rest'); cbn [fmap bind];
             [|reflexivity].
           rewrite app_assoc. reflexivity.
      * destruct (is_trail_surrogate c); [reflexivity|].
        rewrite IH by (simpl; lia).
        destruct (encodeURIComponent rest); cbn [fmap bind]; [|reflexivity].
        rewrite app_assoc. reflexivity.
Qed.

(** Between two ASCII texts a string is encoded on its own. *)
Lemma encode_between_ascii (a b x : jsstring) :
  all_ascii a = true -> all_ascii b = true ->
  encodeURIComponent (a ++ x ++ b)
  = fmap (fun e => pct_ascii a ++ e ++ pct_ascii b) (encodeURIComponent x).
Proof.
  intros Ha Hb.
  rewrite (encode_prefix_ascii a (x ++ b) Ha), (encode_suffix_ascii b Hb x).
  destruct (encodeURIComponent x); reflexivity.
Qed.

Lemma pct_ascii_app (s t : jsstring) :
  pct_ascii (s ++ t) = pct_ascii s ++ pct_ascii t.
Proof. apply flat_map_app. Qed.

Lemma pct_ascii_unreserved (s : jsstring) :
  forallb is_unreserved s = true -> pct_ascii s = s.
Proof.
  induction s as [|c s IH]; cbn [forallb]; intro H; [reflexivity|].
  apply andb_true_iff in H. destruct H as [Hc Hs].
  unfold pct_ascii in *. cbn [flat_map]. rewrite Hc, (IH Hs). reflexivity.
Qed.

Lemma unreserved_all_ascii (s : jsstring) :
  forallb is_unreserved s = true -> all_ascii s = true.
Proof.
  apply forallb_weaken. intros c Hc. apply N.ltb_lt, unreserved_ascii, Hc.
Qed.

(** ** The operators, one family at a time *)

Lemma quote_between (pre post x : jsstring) :
  quote (PString (pre ++ x ++ post))
  = ([dquote] ++ pre) ++ x ++ (post ++ [dquote]).
Proof.
  unfold quote, ToString. rewrite <- !app_assoc. reflexivity.
Qed.

Lemma encode_quoted_pattern (pre post x : jsstring) :
  all_ascii pre = true -> all_ascii post = true ->
  encodeURIComponent (quote (PString (pre ++ x ++ post)))
  = fmap (fun e => pct_ascii ([dquote] ++ pre) ++ e
                   ++ pct_ascii (post ++ [dquote]))
      (encodeURIComponent x).
Proof.
  intros Hpre Hpost. rewrite quote_between.
  apply encode_between_ascii.
  - rewrite all_ascii_app, Hpre. reflexivity.
  - rewrite all_ascii_app, Hpost. reflexivity.
Qed.

Lemma build_built_in (f : jsstring) (op : Operators) (v : Value)
    (opts : RSQLFilterExpressionOptions) :
  build (new_RSQLFilterExpression_with f (ArgOperator op) v opts)
  = st <- encode_value v opts ;;
    r <- operator_suffix op (fst st) (snd st) ;; Ok (f ++ r).
Proof. reflexivity. Qed.

(** X1.  The five pattern operators put the double quotes and their
    wildcards around the percent-encoding of the escaped string: the value
    is encoded on its own, whatever it holds, and [build] raises exactly
    when that encoding does.  The quotes are there for every type of
    value, a boolean for instance. *)
Theorem pattern_operators_wrap_encoded_value :
  forall (f v : jsstring) (opts : RSQLFilterExpressionOptions),
    let pattern op :=
      build (new_RSQLFilterExpression_with f (ArgOperator op) (VString v) opts) in
    let around before after :=
      fmap (fun e => f ++ before ++ e ++ after)
        (encodeURIComponent (escape v)) in
    pattern Like = around (lit "==%22") (lit "%22")
    /\ pattern StartsWith = around (lit "==%22") (lit "*%22")
    /\ pattern EndsWith = around (lit "==%22*") (lit "%22")
    /\ pattern Contains = around (lit "==%22*") (lit "*%22")
    /\ pattern DoesNotContain = around (lit "!=%22*") (lit "*%22")
    /\ (forall b,
          build (new_RSQLFilterExpression_with f (ArgOperator Like)
                   (VBoolean b) opts)
          = Ok (f ++ lit "==%22" ++ (if b then lit "true" else lit "false")
                ++ lit "%22")).
Proof.
  intros f v opts pattern around. subst pattern around. cbv beta.
  rewrite !build_built_in.
  cbn [encode_value bind fst snd operator_suffix].
  pose proof (encode_quoted_pattern [] [] (escape v) eq_refl eq_refl) as E0.
  pose proof (encode_quoted_pattern [] (lit "*") (escape v) eq_refl eq_refl)
    as E1.
  pose proof (encode_quoted_pattern (lit "*") [] (escape v) eq_refl eq_refl)
    as E2.
  pose proof (encode_quoted_pattern (lit "*") (lit "*") (escape v)
                eq_refl eq_refl) as E3.
  cbn [app] in E0, E1, E2. rewrite app_nil_r in E0, E2.
  rewrite E0, E1, E2, E3.
  assert (B : forall b,
             build (new_RSQLFilterExpression_with f (ArgOperator Like)
                      (VBoolean b) opts)
             = Ok (f ++ lit "==%22" ++ (if b then lit "true" else lit "false")
                   ++ lit "%22"))
    by (intros []; reflexivity).
  destruct (encodeURIComponent (escape v)) as [e|x];
    cbn [fmap bind]; repeat split; try reflexivity; exact B.
Qed.

Lemma fixed_width_unreserved (w : nat) (n : N) :
  forallb is_unreserved (fixed_width w n) = true.
Proof.
  revert n. induction w as [|w IH]; intro n; [reflexivity|].
  rewrite fixed_width_S, forallb_app, IH. cbn [forallb andb].
  unfold is_unreserved, is_digit. decide_tests. cbn [andb].
  rewrite orb_true_r. reflexivity.
Qed.

Lemma Number_toString_unreserved (n : JsNumber) :
  forallb is_unreserved (Number_toString n) = true.
Proof.
  destruct n as [z| |[|]]; try reflexivity. unfold Number_toString.
  destruct (digits_fixed (Z.to_N z)) as (m & Hm & _).
  destruct (digits_fixed (Z.to_N (- z))) as (m' & Hm' & _).
  destruct (z <? 0)%Z.
  - cbn [forallb]. rewrite Hm', fixed_width_unreserved. reflexivity.
  - rewrite Hm. apply fixed_width_unreserved.
Qed.

Lemma encode_unreserved (s : jsstring) :
  forallb is_unreserved s = true -> encodeURIComponent s = Ok s.
Proof.
  intro H. rewrite (encode_ascii_total s (unreserved_all_ascii s H)).
  rewrite (pct_ascii_unreserved s H). reflexivity.
Qed.

(** X2.  Under [Equal] and [NotEqual] a number is written as
    [Number::toString] prints it, without quotes and without any escape;
    so are the booleans and [null]. *)
Theorem equality_leaves_plain_values_unquoted :
  forall (f : jsstring) (n : JsNumber) (opts : RSQLFilterExpressionOptions),
    is_safe_number n = true ->
    build (new_RSQLFilterExpression_with f (ArgOperator Equal) (VNumber n) opts)
    = Ok (f ++ lit "=in=" ++ Number_toString n)
    /\ build (new_RSQLFilterExpression_with f (ArgOperator NotEqual)
               (VNumber n) opts)
       = Ok (f ++ lit "!=" ++ Number_toString n)
    /\ (forall b,
          build (new_RSQLFilterExpression_with f (ArgOperator Equal)
                   (VBoolean b) opts)
          = Ok (f ++ lit "=in=" ++ (if b then lit "true" else lit "false")))
    /\ (forall b,
          build (new_RSQLFilterExpression_with f (ArgOperator NotEqual)
                   (VBoolean b) opts)
          = Ok (f ++ lit "!=" ++ (if b then lit "true" else lit "false")))
    /\ build (new_RSQLFilterExpression_with f (ArgOperator Equal) VNull opts)
       = Ok (f ++ lit "=in=null")
    /\ build (new_RSQLFilterExpression_with f (ArgOperator NotEqual) VNull
               opts)
       = Ok (f ++ lit "!=null").
Proof.
  intros f n opts _. rewrite !build_built_in.
  cbn [encode_value bind fst snd operator_suffix quote_if].
  rewrite (encode_unreserved _ (Number_toString_unreserved n)).
  repeat split; try reflexivity; intros []; reflexivity.
Qed.

Lemma equality_leaves_plain_values_unquoted_witness :
  build (new_RSQLFilterExpression (lit "age") (ArgOperator Equal)
           (VNumber (NInt (-42))))
  = Ok (lit "age=in=-42").
Proof.
  apply (equality_leaves_plain_values_unquoted (lit "age") (NInt (-42))
           default_options).
  reflexivity.
Defined.

Lemma raw_operator_suffix (op : Operators) (valueString : jsstring)
    (shouldQuote : bool) :
  appends_raw_value op = true ->
  operator_suffix op valueString shouldQuote
  = Ok (raw_open op ++ valueString ++ raw_close op).
Proof.
  intro H. destruct op; try discriminate H; cbn [operator_suffix];
    try reflexivity;
    unfold raw_close; rewrite app_nil_r; reflexivity.
Qed.

Lemma scalar_value_returns (v : Value) (opts : RSQLFilterExpressionOptions) :
  is_array v = false -> returns (encode_value v opts) = true.
Proof. destruct v; intro H; try discriminate H; reflexivity. Qed.

(** X3.  The comparison operators and [In], [NotIn] never call
    [encodeURIComponent] on the value: for a value that is not an array
    [build] cannot raise, whatever the value holds (an unpaired surrogate
    included), and the value string stands in the output as it is, a
    string value with its escapes and without quotes. *)
Theorem raw_operators_never_raise :
  forall (f : jsstring) (op : Operators) (v : Value)
         (opts : RSQLFilterExpressionOptions),
    appends_raw_value op = true ->
    is_array v = false ->
    (exists valueString shouldQuote,
        encode_value v opts = Ok (valueString, shouldQuote)
        /\ build (new_RSQLFilterExpression_with f (ArgOperator op) v opts)
           = Ok (f ++ raw_open op ++ valueString ++ raw_close op))
    /\ (forall s, encode_value (VString s) opts = Ok (escape s, true)).
Proof.
  intros f op v opts Hop Hv. split; [|reflexivity].
  pose proof (scalar_value_returns v opts Hv) as R.
  rewrite build_built_in.
  destruct (encode_value v opts) as [[vs sq]|x]; [|discriminate R].
  exists vs, sq. split; [reflexivity|].
  cbn [bind fst snd]. rewrite (raw_operator_suffix op vs sq Hop). reflexivity.
Qed.

Lemma raw_operators_never_raise_witness :
  exists valueString shouldQuote,
    encode_value (VString [55296]) default_options
    = Ok (valueString, shouldQuote)
    /\ build (new_RSQLFilterExpression (lit "code") (ArgOperator GreaterThan)
               (VString [55296]))
       = Ok (lit "code" ++ raw_open GreaterThan ++ valueString
             ++ raw_close GreaterThan).
Proof.
  apply (raw_operators_never_raise (lit "code") GreaterThan (VString [55296])
           default_options); reflexivity.
Defined.

Lemma keep_defined_undefined (k : nat) :
  keep_defined (repeat PUndefined k) = [].
Proof. induction k as [|k IH]; [reflexivity | exact IH]. Qed.

(** X4.  With [In] and [NotIn] an array value builds to the field, the
    token and, between parentheses, the texts of its elements separated by
    commas; [build] raises exactly when the encoding of an element does.
    An array that is empty, or holds nothing but [undefined], builds to an
    empty pair of parentheses. *)
Theorem In_builds_the_list :
  forall (f : jsstring) (items : list Prim)
         (opts : RSQLFilterExpressionOptions),
    build (new_RSQLFilterExpression_with f (ArgOperator In) (VArray items) opts)
    = fmap (fun parts => f ++ lit "=in=(" ++ join (lit ",") parts ++ lit ")")
        (mapM item_text (keep_defined items))
    /\ build (new_RSQLFilterExpression_with f (ArgOperator NotIn)
               (VArray items) opts)
       = fmap (fun parts =>
                 f ++ lit "=out=(" ++ join (lit ",") parts ++ lit ")")
           (mapM item_text (keep_defined items))
    /\ (forall k,
          build (new_RSQLFilterExpression_with f (ArgOperator In)
                   (VArray (repeat PUndefined k)) opts)
          = Ok (f ++ lit "=in=()")).
Proof.
  intros f items opts. rewrite !build_built_in, encode_value_array.
  split; [|split].
  - destruct (mapM item_text (keep_defined items)); reflexivity.
  - destruct (mapM item_text (keep_defined items)); reflexivity.
  - intro k. rewrite build_built_in, encode_value_array,
      keep_defined_undefined. reflexivity.
Qed.

Lemma keep_defined_app (s t : list Prim) :
  keep_defined (s ++ t) = keep_defined s ++ keep_defined t.
Proof. apply filter_app. Qed.

Lemma keep_defined_all (items : list Prim) :
  existsb isUndefined items = false -> keep_defined items = items.
Proof.
  unfold keep_defined. induction items as [|i items IH]; [reflexivity|].
  cbn [existsb filter]. intro H. apply orb_false_iff in H.
  destruct H as [Hi Hr]. rewrite Hi, (IH Hr). reflexivity.
Qed.

(** X5.  For a built-in operator the [undefined] elements of an array
    value leave no trace: an array with an [undefined] element, wherever
    it stands, builds to what the array without that element builds to.
    Nothing else is removed: of an array without [undefined] elements
    every element is kept, in its place. *)
Theorem undefined_items_leave_no_trace :
  forall (f : jsstring) (op : Operators) (before after : list Prim)
         (opts : RSQLFilterExpressionOptions),
    build (new_RSQLFilterExpression_with f (ArgOperator op)
             (VArray (before ++ PUndefined :: after)) opts)
    = build (new_RSQLFilterExpression_with f (ArgOperator op)
               (VArray (before ++ after)) opts)
    /\ (forall items,
          existsb isUndefined items = false ->
          encode_value (VArray items) opts
          = fmap (fun parts => (join (lit ",") parts, false))
              (mapM item_text items))
    /\ (forall items, existsb isUndefined (keep_defined items) = false).
Proof.
  intros f op before after opts. split; [|split].
  - rewrite !build_built_in, !encode_value_array, !keep_defined_app.
    reflexivity.
  - intros items H. rewrite encode_value_array, (keep_defined_all items H).
    reflexivity.
  - intro items. unfold keep_defined.
    induction items as [|i items IH]; [reflexivity|].
    cbn [filter]. destruct (isUndefined i) eqn:E; cbn [negb]; [exact IH|].
    cbn [existsb]. rewrite E, IH. reflexivity.
Qed.

Lemma item_text_ascii (i : Prim) (t : jsstring) :
  item_text i = Ok t -> all_ascii t = true.
Proof.
  destruct i as [s|n|b| |]; cbn [item_text]; intro H;
    try (apply (encode_ascii _ _ H)).
  inversion H. apply Number_toString_ascii.
Qed.

Lemma mapM_item_text_ascii (l : list Prim) :
  forall parts, mapM item_text l = Ok parts -> forallb all_ascii parts = true.
Proof.
  induction l as [|i l IH]; cbn [mapM]; intros parts H.
  - inversion H. reflexivity.
  - apply bind_Ok in H. destruct H as (t & Ht & H).
    apply bind_Ok in H. destruct H as (ts & Hts & E). inversion E; subst parts.
    cbn [forallb]. rewrite (item_text_ascii i t Ht), (IH ts Hts). reflexivity.
Qed.

(** X6.  Under [Equal] and [NotEqual] an array value is percent-encoded a
    second time: the texts of the elements, joined by commas, are encoded
    as one string, so that every percent sign of an element's escapes
    becomes [%25] and every separating comma becomes [%2C]. *)
Theorem Equal_encodes_an_array_twice :
  forall (f : jsstring) (items : list Prim)
         (opts : RSQLFilterExpressionOptions),
    build (new_RSQLFilterExpression_with f (ArgOperator Equal)
             (VArray items) opts)
    = fmap (fun parts => f ++ lit "=in=" ++ pct_ascii (join (lit ",") parts))
        (mapM item_text (keep_defined items))
    /\ build (new_RSQLFilterExpression_with f (ArgOperator NotEqual)
               (VArray items) opts)
       = fmap (fun parts => f ++ lit "!=" ++ pct_ascii (join (lit ",") parts))
           (mapM item_text (keep_defined items))
    /\ pct_ascii (lit "%") = lit "%25"
    /\ pct_ascii (lit ",") = lit "%2C"
    /\ (forall s t, pct_ascii (s ++ t) = pct_ascii s ++ pct_ascii t)
    /\ build (new_RSQLFilterExpression_with f (ArgOperator Equal)
               (VArray [PString (lit "a"); PString (lit "b")]) opts)
       = Ok (f ++ lit "=in=%2522a%2522%2C%2522b%2522").
Proof.
  intros f items opts. rewrite !build_built_in, !encode_value_array.
  assert (J : forall parts,
             mapM item_text (keep_defined items) = Ok parts ->
             encodeURIComponent (join (lit ",") parts)
             = Ok (pct_ascii (join (lit ",") parts))).
  { intros parts H. apply encode_ascii_total, join_ascii; [reflexivity|].
    apply (mapM_item_text_ascii _ _ H). }
  destruct (mapM item_text (keep_defined items)) as [parts|x].
  - cbn [fmap bind fst snd operator_suffix quote_if].
    rewrite (J parts eq_refl).
    repeat split; try reflexivity. apply pct_ascii_app.
  - repeat split; try reflexivity. apply pct_ascii_app.
Qed.

(** X7.  Whatever the operator, built in or custom, every string [build]
    returns begins with the field, copied as it is: the field is never
    escaped, quoted or percent-encoded. *)
Theorem build_starts_with_field :
  forall (e : RSQLFilterExpression) (out : jsstring),
    build e = Ok out ->
    exists suffix, out = field e ++ suffix.
Proof.
  intros e out H. unfold build in H.
  apply bind_Ok in H. destruct H as (st & _ & H).
  destruct (customOperator e) as [c|].
  - apply bind_Ok in H. destruct H as (r & _ & E).
    exists r. congruence.
  - destruct (operator e) as [[op|c|c|]|];
      try (exists []; rewrite app_nil_r; congruence).
    apply bind_Ok in H. destruct H as (r & _ & E). exists r. congruence.
Qed.

Lemma build_starts_with_field_witness :
  exists suffix,
    lit "a b==%22*x*%22" = lit "a b" ++ suffix.
Proof.
  apply (build_starts_with_field
           (new_RSQLFilterExpression (lit "a b") (ArgOperator Contains)
              (VString (lit "x")))).
  reflexivity.
Defined.

(** X8.  [shouldQuote] ends up true for string and [Date] values and for
    no other: the branches for numbers, booleans, arrays and [null] leave
    the flag as it was. *)
Theorem shouldQuote_for_strings_and_dates :
  forall (v : Value) (opts : RSQLFilterExpressionOptions)
         (valueString : jsstring) (shouldQuote : bool),
    encode_value v opts = Ok (valueString, shouldQuote) ->
    shouldQuote = sets_shouldQuote v.
Proof.
  intros v opts vs sq H. destruct v as [s|n|b|items|d| | |];
    try (inversion H; reflexivity).
  rewrite encode_value_array in H. apply fmap_Ok in H.
  destruct H as (parts & _ & E). inversion E. reflexivity.
Qed.

Lemma shouldQuote_for_strings_and_dates_witness :
  false = sets_shouldQuote (VArray [PString (lit "a")]).
Proof.
  apply (shouldQuote_for_strings_and_dates (VArray [PString (lit "a")])
           default_options (lit "%22a%22")).
  reflexivity.
Defined.


(** ** [numberToString], [buildDateString], [buildTimestamp] *)

Lemma decimal_value_zeros (k : nat) (s : jsstring) :
  decimal_value (repeat 48 k ++ s) = decimal_value s.
Proof.
  unfold decimal_value. rewrite fold_left_app.
  replace (fold_left (fun acc c => 10 * acc + (c - 48)) (repeat 48 k) 0)
    with 0; [reflexivity|].
  induction k as [|k IH]; [reflexivity|]. cbn [repeat fold_left].
  exact IH.
Qed.

(** X10.  [numberToString] never shortens the text of a number: the result
    has the length of that text or [digitCount] characters, whichever is
    larger, and a text that already has [digitCount] characters is
    returned as it is. *)
Theorem numberToString_never_truncates :
  forall (num : JsNumber) (digitCount : nat),
    List.length (numberToString num digitCount)
    = Nat.max digitCount (List.length (ToString (PNumber num)))
    /\ ((digitCount <= List.length (ToString (PNumber num)))%nat ->
        numberToString num digitCount = ToString (PNumber num)).
Proof.
  intros num k. rewrite numberToString_pads. cbn [ToString].
  split.
  - rewrite length_app, repeat_length.
    destruct (Nat.max_spec k (List.length (Number_toString num)))
      as [[H E]|[H E]]; rewrite E; unfold code_unit in *; lia.
  - intro H. replace (k - List.length (Number_toString num))%nat with O by lia.
    reflexivity.
Qed.

(** X11.  For a non-negative integer the zeros [numberToString] adds leave
    the number unchanged: read as a decimal number, the result is the
    number it was given, at every width. *)
Theorem numberToString_keeps_the_value :
  forall (z : Z) (digitCount : nat),
    (0 <= z <= 9007199254740991)%Z ->
    decimal_value (numberToString (NInt z) digitCount) = Z.to_N z.
Proof.
  intros z k Hz. rewrite numberToString_pads, decimal_value_zeros.
  unfold Number_toString.
  destruct (z <? 0)%Z eqn:E; [apply Z.ltb_lt in E; lia|].
  apply digits_value.
Qed.

Lemma numberToString_keeps_the_value_witness :
  decimal_value (numberToString (NInt 8) 3) = 8.
Proof.
  apply (numberToString_keeps_the_value 8 3). lia.
Defined.

(** X12.  For a negative integer the minus sign counts as a character of
    the text and the zeros go in front of it: the result is zeros, then
    the sign, then the digits, as in [00-5] for -5 at width 4. *)
Theorem numberToString_pads_before_the_sign :
  forall (z : Z) (digitCount : nat),
    (- 9007199254740991 <= z < 0)%Z ->
    numberToString (NInt z) digitCount
    = repeat 48 (digitCount - S (List.length (digits (Z.to_N (- z)))))
      ++ ch "-" :: digits (Z.to_N (- z)).
Proof.
  intros z k Hz. rewrite numberToString_pads. unfold Number_toString.
  destruct (z <? 0)%Z eqn:E; [reflexivity|]. apply Z.ltb_ge in E. lia.
Qed.

Lemma numberToString_pads_before_the_sign_witness :
  numberToString (NInt (-5)) 4 = lit "00-5".
Proof.
  apply (numberToString_pads_before_the_sign (-5) 4). lia.
Defined.

Lemma numberToString_at_least (num : JsNumber) (k : nat) :
  (k <= List.length (numberToString num k))%nat.
Proof.
  rewrite numberToString_pads, length_app, repeat_length.
  unfold code_unit in *. lia.
Qed.

(** X13.  Whatever the date, an invalid one included, the date string has
    at least the ten characters of [YYYY-MM-DD] and the time stamp at
    least the fourteen of [THH:mm:ss.SSSZ], and both are made of ASCII
    characters only. *)
Theorem date_strings_are_never_short :
  forall (d : JsDate) (useUTC : bool),
    (10 <= List.length (buildDateString d useUTC))%nat
    /\ (14 <= List.length (buildTimestamp d))%nat
    /\ all_ascii (buildDateString d useUTC) = true
    /\ all_ascii (buildTimestamp d) = true.
Proof.
  intros d useUTC. split; [|split; [|split]].
  - unfold buildDateString. cbn [join]. rewrite !length_app.
    set (y := if useUTC then getUTCFullYear d else getFullYear d).
    set (m := if useUTC then Number_add (getUTCMonth d) (NInt 1)
              else Number_add (getMonth d) (NInt 1)).
    set (a := if useUTC then getUTCDate d else getDate d).
    pose proof (numberToString_at_least y 4).
    pose proof (numberToString_at_least m 2).
    pose proof (numberToString_at_least a 2).
    cbn [lit map list_ascii_of_string List.length].
    unfold jsstring, code_unit in *. lia.
  - unfold buildTimestamp. cbn [join]. rewrite !length_app.
    pose proof (numberToString_at_least (getUTCHours d) 2).
    pose proof (numberToString_at_least (getUTCMinutes d) 2).
    pose proof (numberToString_at_least (getUTCSeconds d) 2).
    pose proof (numberToString_at_least (getUTCMilliseconds d) 3).
    cbn [lit map list_ascii_of_string List.length].
    unfold jsstring, code_unit in *. lia.
  - apply buildDateString_ascii.
  - apply buildTimestamp_ascii.
Qed.

Lemma iso_date_unreserved (f : DateFields) :
  forallb is_unreserved (iso_date f) = true.
Proof.
  unfold iso_date. rewrite !forallb_app, !fixed_width_unreserved. reflexivity.
Qed.

Lemma iso_time_ascii (f : DateFields) : all_ascii (iso_time f) = true.
Proof.
  unfold iso_time. rewrite !all_ascii_app, !fixed_width_ascii. reflexivity.
Qed.

Lemma pct_ascii_iso_time (f : DateFields) :
  pct_ascii (iso_time f) = iso_time_pct f.
Proof.
  unfold iso_time, iso_time_pct.
  rewrite !pct_ascii_app,
    !(pct_ascii_unreserved _ (fixed_width_unreserved _ _)).
  reflexivity.
Qed.

Lemma encode_value_date (l u : DateFields) (timestamp : bool) :
  let f := if timestamp then u else l in
  fields_in_range f -> (0 <= fullYear f <= 9999)%Z ->
  encode_value (VDate (DateOf l u)) (mkOptions timestamp)
  = Ok (iso_date f ++ (if timestamp then iso_time u else []), true).
Proof.
  intros f Hr Hy. unfold encode_value. cbn [includeTimestamp bind snd].
  destruct timestamp; subst f.
  - rewrite (buildDateString_fixed l u true Hr Hy),
      (buildTimestamp_fixed l u Hr). reflexivity.
  - rewrite (buildDateString_fixed l u false Hr Hy), app_nil_r. reflexivity.
Qed.

(** X14.  A date from the year 0 to the year 9999 is written between
    encoded double quotes under [Equal], where the colons of a time stamp
    become [%3A], and bare under the comparison operators, where the time
    stamp keeps its colons. *)
Theorem date_under_Equal_and_GreaterThan :
  forall (field_ : jsstring) (l u : DateFields) (timestamp : bool),
    let f := if timestamp then u else l in
    let on op :=
      build (new_RSQLFilterExpression_with field_ (ArgOperator op)
               (VDate (DateOf l u)) (mkOptions timestamp)) in
    fields_in_range f -> (0 <= fullYear f <= 9999)%Z ->
    on Equal
    = Ok (field_ ++ lit "=in=%22" ++ iso_date f
          ++ (if timestamp then iso_time_pct u else []) ++ lit "%22")
    /\ on GreaterThan
       = Ok (field_ ++ lit "%3E" ++ iso_date f
             ++ (if timestamp then iso_time u else []))
    /\ on LessThanEqualTo
       = Ok (field_ ++ lit "%3C%3D" ++ iso_date f
             ++ (if timestamp then iso_time u else [])).
Proof.
  intros field_ l u timestamp f on Hr Hy. subst on. cbv beta.
  rewrite !build_built_in, (encode_value_date l u timestamp Hr Hy).
  fold f. cbn [bind fst snd operator_suffix quote_if].
  split; [|split; reflexivity].
  pose proof (iso_date_unreserved f) as Ud.
  unfold quote, ToString.
  destruct timestamp; rewrite encode_ascii_total.
  - rewrite !pct_ascii_app, (pct_ascii_unreserved _ Ud), pct_ascii_iso_time.
    cbn [bind]. rewrite <- !app_assoc. reflexivity.
  - rewrite !all_ascii_app, (unreserved_all_ascii _ Ud), iso_time_ascii.
    reflexivity.
  - rewrite !pct_ascii_app, (pct_ascii_unreserved _ Ud).
    cbn [bind]. rewrite <- !app_assoc. reflexivity.
  - rewrite !all_ascii_app, (unreserved_all_ascii _ Ud). reflexivity.
Qed.

Lemma date_under_Equal_and_GreaterThan_witness :
  build (new_RSQLFilterExpression_with (lit "born") (ArgOperator Equal)
           (VDate date_2019_01_05) (mkOptions true))
  = Ok (lit "born=in=%222019-01-05T01%3A02%3A03.004Z%22").
Proof.
  assert (R : fields_in_range fields_2019_01_05) by in_range.
  assert (Y : (0 <= fullYear fields_2019_01_05 <= 9999)%Z) by (simpl; lia).
  apply (date_under_Equal_and_GreaterThan (lit "born") fields_2019_01_05
           fields_2019_01_05 true R Y).
Defined.

(** ** The two [replace] calls *)

Lemma escape_char_length (c : code_unit) :
  List.length (escape_char c)
  = if (c =? backslash) || (c =? dquote) then 2%nat else 1%nat.
Proof.
  unfold escape_char.
  destruct (c =? backslash); [reflexivity|].
  destruct (c =? dquote); reflexivity.
Qed.

Lemma escape_app (s t : jsstring) : escape (s ++ t) = escape s ++ escape t.
Proof. rewrite !escape_flat_map. apply flat_map_app. Qed.

(** X15.  Escaping loses nothing: two different strings never have the
    same escaped text, whatever they hold.  It adds exactly one backslash
    for each backslash and each double quote of the string, and works
    character by character, so that the escape of a concatenation is the
    concatenation of the escapes. *)
Theorem escape_is_injective :
  forall (s t : jsstring),
    (escape s = escape t -> s = t)
    /\ List.length (escape s) = (List.length s + count_escaped s)%nat
    /\ escape (s ++ t) = escape s ++ escape t.
Proof.
  intros s t. split; [|split].
  - intro H. pose proof (unescape_escape s) as Hs.
    rewrite H, unescape_escape in Hs. congruence.
  - clear t. induction s as [|c s IH]; [reflexivity|].
    rewrite escape_cons, length_app, escape_char_length, IH.
    unfold count_escaped. cbn [filter List.length].
    destruct ((c =? backslash) || (c =? dquote)); cbn [List.length]; lia.
  - apply escape_app.
Qed.

(** ** How long the output can get *)

Lemma pct_octets_length (l : list N) :
  List.length (flat_map pct_octet l) = (3 * List.length l)%nat.
Proof.
  induction l as [|b l IH]; [reflexivity|].
  cbn [flat_map]. rewrite length_app, IH. cbn [pct_octet List.length]. lia.
Qed.

Lemma pct_code_point_length (cp : N) :
  (3 <= List.length (pct_code_point cp) <= 12)%nat
  /\ (cp < 65536 -> (List.length (pct_code_point cp) <= 9)%nat).
Proof.
  unfold pct_code_point. rewrite pct_octets_length. unfold utf8.
  destruct (cp <? 128); [cbn [List.length]; lia|].
  destruct (cp <? 2048); [cbn [List.length]; lia|].
  destruct (cp <? 65536) eqn:E; cbn [List.length]; [lia|].
  apply N.ltb_ge in E. lia.
Qed.

Lemma first_of_escape (s : jsstring) (d : code_unit) (r : jsstring) :
  escape s = d :: r ->
  is_trail_surrogate d = true ->
  exists s', s = d :: s' /\ r = escape s'.
Proof.
  intros H T. destruct s as [|c s']; [discriminate H|].
  rewrite escape_cons in H. unfold escape_char in H.
  destruct (c =? backslash).
  { inversion H; subst d. discriminate T. }
  destruct (c =? dquote).
  { inversion H; subst d. discriminate T. }
  inversion H; subst. exists s'. split; reflexivity.
Qed.

Lemma escaped_encoding_length (s : jsstring) :
  forall e,
    code_units s = true ->
    encodeURIComponent (escape s) = Ok e ->
    (List.length s <= List.length e <= 9 * List.length s)%nat.
Proof.
  induction s as [s IH] using list_length_ind. intros e U H.
  destruct s as [|c rest]; [inversion H; cbn; lia|].
  unfold code_units in U. cbn [forallb] in U.
  apply andb_true_iff in U. destruct U as [Uc Ur].
  unfold is_code_unit in Uc. apply N.ltb_lt in Uc.
  rewrite escape_cons in H. unfold escape_char in H.
  destruct (c =? backslash).
  { rewrite (encode_prefix_ascii [backslash; backslash]) in H by reflexivity.
    apply fmap_Ok in H. destruct H as (e' & He' & ->).
    specialize (IH rest ltac:(simpl; lia) e' Ur He').
    rewrite length_app. cbn [List.length pct_ascii flat_map] in *.
    cbn. lia. }
  destruct (c =? dquote).
  { rewrite (encode_prefix_ascii [backslash; dquote]) in H by reflexivity.
    apply fmap_Ok in H. destruct H as (e' & He' & ->).
    specialize (IH rest ltac:(simpl; lia) e' Ur He').
    rewrite length_app. cbn [List.length pct_ascii flat_map] in *.
    cbn. lia. }
  cbn [app] in H. rewrite encode_cons in H.
  destruct (is_unreserved c).
  { apply bind_Ok in H. destruct H as (e' & He' & E). inversion E; subst e.
    specialize (IH rest ltac:(simpl; lia) e' Ur He').
    cbn [List.length] in *. lia. }
  destruct (is_lead_surrogate c).
  - destruct (escape rest) as [|d r] eqn:Er; [discriminate H|].
    destruct (is_trail_surrogate d) eqn:T; [|discriminate H].
    destruct (first_of_escape rest d r Er T) as (rest' & -> & ->).
    apply bind_Ok in H. destruct H as (e' & He' & E). inversion E; subst e.
    cbn [forallb] in Ur. apply andb_true_iff in Ur. destruct Ur as [_ Ur'].
    specialize (IH rest' ltac:(simpl; lia) e' Ur' He').
    rewrite length_app.
    destruct (pct_code_point_length (pair_code_point c d)) as [B _].
    cbn [List.length] in *. lia.
  - destruct (is_trail_surrogate c); [discriminate H|].
    apply bind_Ok in H. destruct H as (e' & He' & E). inversion E; subst e.
    specialize (IH rest ltac:(simpl; lia) e' Ur He').
    rewrite length_app.
    destruct (pct_code_point_length c) as [B B9]. specialize (B9 Uc).
    cbn [List.length] in *. lia.
Qed.

(** X16.  The output for a string value under [Equal] is never longer than
    the field, the ten characters of the token and of the two encoded
    quotes, and nine characters for each code unit of the value; nor is it
    shorter than the field, those ten characters and the value. *)
Theorem Equal_output_length :
  forall (f v out : jsstring) (opts : RSQLFilterExpressionOptions),
    code_units v = true ->
    build (new_RSQLFilterExpression_with f (ArgOperator Equal) (VString v) opts)
    = Ok out ->
    (List.length f + 10 + List.length v <= List.length out
     <= List.length f + 10 + 9 * List.length v)%nat.
Proof.
  intros f v out opts U H. rewrite build_built_in in H.
  cbn [encode_value bind fst snd operator_suffix quote_if] in H.
  pose proof (encode_quoted_pattern [] [] (escape v) eq_refl eq_refl) as E.
  cbn [app] in E. rewrite app_nil_r in E. rewrite E in H.
  destruct (encodeURIComponent (escape v)) as [e|x] eqn:Ee; [|discriminate H].
  pose proof (escaped_encoding_length v e U Ee) as B.
  cbn [fmap bind] in H. inversion H; subst out.
  rewrite length_app. cbn [List.length]. rewrite length_app.
  cbn [List.length]. unfold jsstring, code_unit in *. lia.
Qed.

Lemma Equal_output_length_witness :
  (List.length (lit "code") + 10 + List.length (lit "abc")
   <= List.length (lit "code=in=%22abc%22")
   <= List.length (lit "code") + 10 + 9 * List.length (lit "abc"))%nat.
Proof.
  apply (Equal_output_length (lit "code") (lit "abc")
           (lit "code=in=%22abc%22") default_options); reflexivity.
Defined.

(** ** The operators that take no value *)

(** X17.  [IsEmpty], [IsNotEmpty], [IsNull] and [IsNotNull] do not use the
    value: whatever value the expression holds, provided its strings have
    no unpaired surrogate, the result is the field followed by the
    operator's fixed text. *)
Theorem value_free_operators_ignore_the_value :
  forall (f : jsstring) (v : Value) (opts : RSQLFilterExpressionOptions),
    value_well_formed v = true ->
    let on op :=
      build (new_RSQLFilterExpression_with f (ArgOperator op) v opts) in
    on IsEmpty = Ok (f ++ lit "==%22%22")
    /\ on IsNotEmpty = Ok (f ++ lit "!=%22%22")
    /\ on IsNull = Ok (f ++ lit "==null")
    /\ on IsNotNull = Ok (f ++ lit "!=null").
Proof.
  intros f v opts Hv on. subst on. cbv beta.
  destruct (encode_value_returns v opts Hv) as (vs & sq & Hev & _).
  rewrite !build_built_in, Hev. repeat split; reflexivity.
Qed.

Lemma value_free_operators_ignore_the_value_witness :
  build (new_RSQLFilterExpression (lit "code") (ArgOperator IsNull)
           (VArray [PString (lit "a b"); PNumber (NInt 3)]))
  = Ok (lit "code==null").
Proof.
  apply (value_free_operators_ignore_the_value (lit "code")
           (VArray [PString (lit "a b"); PNumber (NInt 3)]) default_options).
  reflexivity.
Defined.
